(** * The A2C training driver [train] of [train.py]

    A shallow embedding of the driver: the epoch loop, the epoch function
    [epoch_fn], the scoped logger and timers, the random-key plumbing and
    the device placement switch.  Everything the driver delegates to (the
    setup functions, the agent, the evaluators, the logger, the timers and
    the numerical framework) is a field of the record [Externals]; each
    delegated call may read and change a hidden [World] and may raise.

    A computation in the monad [M] yields an outcome, the resulting world
    and the list of events it issued, so that statements about "what the
    driver does, and in which order" are statements about event lists. *)

From Stdlib Require Import ZArith Lia.
From stdpp Require Import base option list gmap strings sorting.

Local Open Scope Z_scope.
Set Warnings "-register-all".

(** ** Opaque types of the delegated components *)

Class Objects := {
  World : Type;      (* hidden state of everything outside the driver *)
  Elt : Type;        (* array elements and real-valued hyper-parameters *)
  Logger : Type;
  Env : Type;
  Networks : Type;
  Optimizer : Type;
  Agent : Type;
  Evaluator : Type;
}.

(** ** Random keys

    A key is identified by the way it was derived from the seed:
    [jax.random.PRNGKey seed] or the [idx]-th output of a [num]-way
    [jax.random.split] of a parent key.  Two keys are equal when they were
    derived the same way. *)

Inductive Key :=
  | PRNGKey (seed : Z)
  | SubKey (parent : Key) (num : nat) (idx : nat).

Definition random_split (key : Key) (num : nat) : list Key :=
  SubKey key num <$> seq 0 num.

Fixpoint depth (k : Key) : nat :=
  match k with
  | PRNGKey _ => O
  | SubKey p _ _ => S (depth p)
  end.

(** ** Devices, exceptions, arrays *)

Inductive Device := Cpu (n : nat) | Gpu (n : nat) | Tpu (n : nat).

Inductive Exn :=
  | IndexError
  | ValueError
  | OverflowError
  | RuntimeError (msg : string).

Inductive result (A : Type) :=
  | Ok (a : A)
  | Raise (e : Exn).
Arguments Ok {A} a.
Arguments Raise {A} e.

Definition is_ok {A} (r : result A) : bool :=
  match r with Ok _ => true | Raise _ => false end.

(** [jax.random.PRNGKey(seed)]: the key of a seed that fits a signed
    64-bit integer; on any other integer the conversion of the seed raises
    [OverflowError]. *)
Definition jax_random_PRNGKey (seed : Z) : result Key :=
  if bool_decide (- 2 ^ 63 ≤ seed < 2 ^ 63) then Ok (PRNGKey seed)
  else Raise OverflowError.

Section Data.
Context `{O : Objects}.

Inductive ndarray :=
  | Scalar (v : Elt)
  | Stack (xs : list ndarray).

(** The length of the leading axis, when there is one. *)
Definition leading_axis (a : ndarray) : option nat :=
  match a with
  | Scalar _ => None
  | Stack xs => Some (length xs)
  end.

Fixpoint elements (a : ndarray) : list Elt :=
  match a with
  | Scalar v => [v]
  | Stack xs => (fix go (l : list ndarray) : list Elt :=
                   match l with
                   | [] => []
                   | x :: l' => elements x ++ go l'
                   end) xs
  end.

(** An array lives on a device. *)
Record Array := mkArray { arr_val : ndarray; arr_dev : Device }.

(** [x[0]]: the first slice along the leading axis; an [IndexError] on a
    0-d array or on an empty leading axis (here [None]). *)
Definition index0 (x : Array) : option Array :=
  match arr_val x with
  | Stack (y :: _) => Some (mkArray y (arr_dev x))
  | _ => None
  end.

(** [x[None]]: a new leading axis of length one. *)
Definition add_axis (x : Array) : Array :=
  mkArray (Stack [arr_val x]) (arr_dev x).

(** [jax.device_put] on one array. *)
Definition put_on (d : Device) (x : Array) : Array :=
  mkArray (arr_val x) d.

(** A pytree is represented by the list of its leaves. *)
Definition Leaves := list Array.

(** Modelled from the spec: the declaration of [TrainingState]
    ([jumanji.training.types]) is not part of the file.  It is an immutable
    composite holding [params_state] (network parameters and optimizer
    state) and [acting_state]; the driver reads
    [params_state.params.actor] and [acting_state] and replaces
    [acting_state].  The remaining leaves of a part are kept together. *)
Record ActorCriticParams := mkParams { actor : Leaves; critic : Leaves }.
Record ParamsState := mkParamsState { params : ActorCriticParams; opt_state : Leaves }.
Record TrainingState := mkTrainingState {
  params_state : ParamsState;
  acting_state : Leaves;
}.

Definition ts_leaves (ts : TrainingState) : Leaves :=
  actor (params (params_state ts)) ++ critic (params (params_state ts))
  ++ opt_state (params_state ts) ++ acting_state ts.

(** [training_state._replace(acting_state=a)] *)
Definition replace_acting_state (ts : TrainingState) (a : Leaves) : TrainingState :=
  mkTrainingState (params_state ts) a.

(** [jax.tree_map f training_state], for a total [f] and for an [f] that
    may raise. *)
Definition tree_map (f : Array → Array) (ts : TrainingState) : TrainingState :=
  let ps := params_state ts in
  mkTrainingState
    (mkParamsState (mkParams (f <$> actor (params ps)) (f <$> critic (params ps)))
                   (f <$> opt_state ps))
    (f <$> acting_state ts).

Definition tree_map_opt (f : Array → option Array) (ts : TrainingState)
    : option TrainingState :=
  let ps := params_state ts in
  a ← mapM f (actor (params ps));
  c ← mapM f (critic (params ps));
  o ← mapM f (opt_state ps);
  s ← mapM f (acting_state ts);
  Some (mkTrainingState (mkParamsState (mkParams a c) o) s).

(** Metrics: a dictionary from metric names to arrays. *)
Definition Metrics := gmap string Array.

(** ** Configuration *)

Record A2CConfig := mkA2C {
  learning_rate : Elt;
  normalize_advantage : bool;
  discount_factor : Elt;
  bootstrapping_factor : Elt;
  l_pg : Elt;
  l_td : Elt;
  l_en : Elt;
}.

Record Config := mkConfig {
  seed : Z;
  n_steps : Z;
  total_batch_size : Z;
  num_learner_steps_per_epoch : Z;
  num_epochs : Z;
  a2c : A2CConfig;
}.

(** [Timer(out_var_name=..., num_steps_per_timing=...)] *)
Record Timer := mkTimer {
  out_var_name : string;
  num_steps_per_timing : option Z;
}.

(** ** Events *)

Inductive EvalKind := Stochastic | Greedy.

Inductive Event :=
  | EvSplit (key : Key) (subkeys : list Key)
  | EvLoggerEnter
  | EvLoggerExit (exc : option Exn)
  | EvIter (i : Z)
  | EvTimerEnter (t : Timer)
  | EvTimerExit (t : Timer)
  | EvRunEvaluation (which : EvalKind) (ps : ParamsState) (key : Key)
  | EvWrite (data : Metrics) (label : string) (env_steps : Z)
  | EvDevicePut (device : Device)
  | EvRollout (policy_params acting : Leaves)
  | EvRolloutRet (acting data : Leaves)
  | EvGradientStep (ts : TrainingState) (data : Leaves)
  | EvGradientStepRet (ts : TrainingState) (raw : Metrics).

(** ** The driver monad: world passing, exceptions, an event log *)

Record Run (A : Type) := mkRun {
  outcome : result A;
  world : World;
  events : list Event;
}.
Arguments mkRun {A} _ _ _.
Arguments outcome {A} _.
Arguments world {A} _.
Arguments events {A} _.

Definition M (A : Type) : Type := World → Run A.

(** A delegated call: it sees the world, changes it, returns or raises. *)
Definition ext (A : Type) : Type := World → result A * World.

Definition ret {A} (a : A) : M A := λ w, mkRun (Ok a) w [].

Definition bind {A B} (m : M A) (f : A → M B) : M B := λ w,
  match m w with
  | mkRun (Ok a) w' evs =>
      match f a w' with
      | mkRun r w'' evs' => mkRun r w'' (evs ++ evs')
      end
  | mkRun (Raise e) w' evs => mkRun (Raise e) w' evs
  end.

Definition raise {A} (e : Exn) : M A := λ w, mkRun (Raise e) w [].

Definition emit (e : Event) : M unit := λ w, mkRun (Ok tt) w [e].

Definition call {A} (op : ext A) : M A := λ w,
  match op w with
  | (r, w') => mkRun r w' []
  end.

Definition of_option {A} (o : option A) (e : Exn) : M A :=
  match o with Some a => ret a | None => raise e end.

(** [with]: enter, run the body, and leave on every path.  The exit sees
    the exception of the body, if any, and does not swallow it; an
    exception of the exit itself replaces the outcome. *)
Definition finally {A} (body : M A) (leave : result A → M A) : M A := λ w,
  match body w with
  | mkRun r w' evs =>
      match leave r w' with
      | mkRun r' w'' evs' => mkRun r' w'' (evs ++ evs')
      end
  end.

Definition exc_of {A} (r : result A) : option Exn :=
  match r with Ok _ => None | Raise e => Some e end.

End Data.

Arguments mkRun {O A} _ _ _.
Arguments outcome {O A} _.
Arguments world {O A} _.
Arguments events {O A} _.

#[global] Instance M_ret `{Objects} : MRet M := @ret _.
#[global] Instance M_bind `{Objects} : MBind M := λ A B f m, bind m f.

(** ** The delegated components

    What [train] imports and calls: the setup functions, the agent and its
    two methods, the evaluators, the logger, [utils.first_from_device], the
    [Timer] context manager and the calls into the numerical framework.
    None of them is defined in the file, so each is a parameter of the
    model.  The timers are constructed by the driver with
    [out_var_name="metrics"]: leaving a timing scope may update the mapping
    the block has bound to [metrics], which is what gets logged. *)

Record Externals `{Objects} := mkExternals {
  setup_logger : Config → ext Logger;
  setup_env : Config → ext Env;
  _setup_actor_critic_neworks : Config → Env → ext Networks;
  optax_adam : Elt → ext Optimizer;
  A2CAgent : Env → Z → Z → Networks → Optimizer → A2CConfig → bool → ext Agent;
  setup_evaluators : Config → Agent → ext (Evaluator * Evaluator);
  setup_training_state : Env → Agent → Key → ext TrainingState;
  isinstance_RandomAgent : Agent → bool;
  run_evaluation : Evaluator → ParamsState → Key → ext Metrics;
  block_until_ready : ext unit;
  first_from_device : Metrics → ext Metrics;
  logger_enter : Logger → ext unit;
  logger_exit : Logger → option Exn → ext unit;
  logger_write : Logger → Metrics → string → Z → ext unit;
  log_compiles_enter : bool → ext unit;
  log_compiles_exit : bool → option Exn → ext unit;
  timer_enter : Timer → ext unit;
  (* leaving a timing scope normally: the timer sees the value bound to
     its [out_var_name] and may update it *)
  timer_exit : Timer → Metrics → ext Metrics;
  (* leaving a timing scope on an exception *)
  timer_abort : Timer → Exn → ext unit;
  jax_devices : option string → list Device;
  rollout : Agent → Leaves → Leaves → ext (Leaves * Leaves);
  gradient_step : Agent → TrainingState → Leaves → ext (TrainingState * Metrics);
  (* the average of the elements of an array, as [jnp.mean] rounds it *)
  mean_of : list Elt → Elt;
}.

(** ** The driver *)

Section Driver.
Context `{O : Objects} (E : Externals).

Definition of_result {A} (r : result A) : M A :=
  match r with Ok a => ret a | Raise e => raise e end.

(** [with cm: body] for a context manager given by its enter and exit. *)
Definition with_ {A} (enter : M unit) (leave : option Exn → M unit)
    (body : M A) : M A :=
  enter;;
  finally body (λ r, leave (exc_of r);; of_result r).

(** [with timer: ...], where the block binds the variable the timer
    reports into (both timers of the driver name [metrics]). *)
Definition timed {A} (t : Timer) (body : M (A * Metrics)) : M (A * Metrics) :=
  emit (EvTimerEnter t);;
  call (timer_enter E t);;
  finally body (λ r,
    emit (EvTimerExit t);;
    match r with
    | Ok am => metrics ← call (timer_exit E t am.2); mret (am.1, metrics)
    | Raise e => call (timer_abort E t e);; raise e
    end).

(** [jax.random.split(key, num)] *)
Definition split (key : Key) (num : nat) : M (list Key) :=
  emit (EvSplit key (random_split key num));;
  mret (random_split key num).

Definition unpack2 {A} (l : list A) : M (A * A) :=
  match l with
  | [a; b] => mret (a, b)
  | _ => raise ValueError
  end.

Definition unpack3 {A} (l : list A) : M (A * A * A) :=
  match l with
  | [a; b; c] => mret (a, b, c)
  | _ => raise ValueError
  end.

(** [jnp.mean(x)]: a 0-d array holding the average of all elements. *)
Definition jnp_mean (x : Array) : Array :=
  mkArray (Scalar (mean_of E (elements (arr_val x)))) (arr_dev x).

(** [jax.devices(backend)[0]] *)
Definition first_device (backend : option string) : M Device :=
  of_option (jax_devices E backend !! 0%nat) IndexError.

(** [jax.device_put((a, b), device=d)] *)
Definition device_put (ab : Leaves * Leaves) (d : Device) : M (Leaves * Leaves) :=
  emit (EvDevicePut d);;
  mret (put_on d <$> ab.1, put_on d <$> ab.2).

(** [for i in xs: s = body(i, s)] *)
Fixpoint for_each {S} (xs : list Z) (body : Z → S → M S) (s : S) : M S :=
  match xs with
  | [] => mret s
  | i :: xs' => emit (EvIter i);; s' ← body i s; for_each xs' body s'
  end.

(** [trange(n)] iterates over [range(n)]. *)
Definition trange (n : Z) : list Z := seqZ 0 n.

Section Loop.
Variables (gpu_acting : bool) (logger : Logger) (agent : Agent).
Variables (stochastic_eval greedy_eval : Evaluator).
Variables (eval_timer train_timer : Timer) (num_steps_per_epoch : Z).

Definition epoch_fn (training_state : TrainingState) : M (TrainingState * Metrics) :=
  training_state ← of_option (tree_map_opt index0 training_state) IndexError;
  '(policy_params, acting_state) ←
    (if negb gpu_acting then
       cpu ← first_device (Some "cpu"%string);
       device_put (actor (params (params_state training_state)),
                   acting_state training_state) cpu
     else
       mret (actor (params (params_state training_state)),
             acting_state training_state));
  emit (EvRollout policy_params acting_state);;
  '(acting_state, data) ← call (rollout E agent policy_params acting_state);
  emit (EvRolloutRet acting_state data);;
  '(acting_state, data) ←
    (if negb gpu_acting then
       dev ← first_device None;
       device_put (acting_state, data) dev
     else mret (acting_state, data));
  let training_state := replace_acting_state training_state acting_state in
  emit (EvGradientStep training_state data);;
  '(training_state, metrics) ← call (gradient_step E agent training_state data);
  emit (EvGradientStepRet training_state metrics);;
  let metrics := jnp_mean <$> metrics in
  let training_state := tree_map add_axis training_state in
  mret (training_state, metrics).

(** [logger.write(data=..., label=..., env_steps=...)] *)
Definition write (data : Metrics) (label : string) (env_steps : Z) : M unit :=
  emit (EvWrite data label env_steps);;
  call (logger_write E logger data label env_steps).

(** One evaluation block of the loop body: the evaluator runs under
    [eval_timer], the result is taken from the first device and logged. *)
Definition evaluate (which : EvalKind) (evaluator : Evaluator) (label : string)
    (params_state : ParamsState) (key : Key) (env_steps : Z) : M unit :=
  um ← timed eval_timer (
      emit (EvRunEvaluation which params_state key);;
      metrics ← call (run_evaluation E evaluator params_state key);
      call (block_until_ready E);;
      mret (tt, metrics));
  data ← call (first_from_device E um.2);
  write data label env_steps.

(** The training block of the loop body: [epoch_fn] runs under
    [train_timer] and its metrics are logged. *)
Definition train_step (training_state : TrainingState) (env_steps : Z)
    : M TrainingState :=
  tm ← timed train_timer (
      r ← epoch_fn training_state;
      call (block_until_ready E);;
      mret r);
  write tm.2 "train" env_steps;;
  mret tm.1.

(** The body of the epoch loop; the loop carries [key] and
    [training_state] from one iteration to the next. *)
Definition epoch (i : Z) (st : Key * TrainingState) : M (Key * TrainingState) :=
  let env_steps := i * num_steps_per_epoch in
  keys ← split st.1 3;
  ksg ← unpack3 keys;
  let key := ksg.1.1 in
  let stochastic_eval_key := ksg.1.2 in
  let greedy_eval_key := ksg.2 in
  evaluate Stochastic stochastic_eval "eval_stochastic"
           (params_state st.2) stochastic_eval_key env_steps;;
  (if negb (isinstance_RandomAgent E agent) then
     evaluate Greedy greedy_eval "eval_greedy"
              (params_state st.2) greedy_eval_key env_steps
   else mret tt);;
  training_state ← train_step st.2 env_steps;
  mret (key, training_state).

End Loop.

(** [num_steps_per_epoch] of [train] *)
Definition steps_per_epoch (cfg : Config) : Z :=
  n_steps cfg * total_batch_size cfg * num_learner_steps_per_epoch cfg.

(** [train].  The [print] and [logging] calls that open the function and
    the progress display of [trange] have no part in what follows and are
    left out. *)
Definition train (cfg : Config) (log_compiles gpu_acting : bool) : M unit :=
  keys ← split (PRNGKey (seed cfg)) 2;
  ki ← unpack2 keys;
  let key := ki.1 in
  let init_key := ki.2 in
  logger ← call (setup_logger E cfg);
  env ← call (setup_env E cfg);
  actor_critic_networks ← call (_setup_actor_critic_neworks E cfg env);
  optimizer ← call (optax_adam E (learning_rate (a2c cfg)));
  agent ← call (A2CAgent E env (n_steps cfg) (total_batch_size cfg)
                   actor_critic_networks optimizer (a2c cfg) gpu_acting);
  evaluators ← call (setup_evaluators E cfg agent);
  let stochastic_eval := evaluators.1 in
  let greedy_eval := evaluators.2 in
  training_state ← call (setup_training_state E env agent init_key);
  let num_steps_per_epoch := steps_per_epoch cfg in
  let eval_timer := mkTimer "metrics" None in
  let train_timer := mkTimer "metrics" (Some num_steps_per_epoch) in
  with_ (call (log_compiles_enter E log_compiles))
        (λ exc, call (log_compiles_exit E log_compiles exc))
    (with_ (call (logger_enter E logger);; emit EvLoggerEnter)
           (λ exc, emit (EvLoggerExit exc);; call (logger_exit E logger exc))
       (for_each (trange (num_epochs cfg))
                 (epoch gpu_acting logger agent stochastic_eval greedy_eval
                        eval_timer train_timer num_steps_per_epoch)
                 (key, training_state);;
        mret tt)).

End Driver.

(** ** The seed

    The first call of [train] is [jax.random.PRNGKey(cfg.seed)], at line
    51.  It raises unless the seed fits 64 bits, before anything is split,
    set up or logged; [train] above is the run from a seed the call
    accepts, and [train_seeded] is the run from any seed. *)

Section Seeded.
Context `{O : Objects} (E : Externals).

Definition seed_accepted (cfg : Config) : Prop :=
  is_ok (jax_random_PRNGKey (seed cfg)) = true.

Definition train_seeded (cfg : Config) (log_compiles gpu_acting : bool)
    : M unit :=
  of_result (jax_random_PRNGKey (seed cfg));;
  train E cfg log_compiles gpu_acting.

End Seeded.

(** ** Reading a trace

    The loop iterator yields the epoch index ([EvIter i]); the events of
    epoch [i] are those that follow, up to the next step of the iterator
    or the moment the logger scope is left. *)

Section Reading.
Context `{O : Objects}.

Definition in_epoch (e : Event) : bool :=
  match e with
  | EvIter _ | EvLoggerEnter | EvLoggerExit _ => false
  | _ => true
  end.

Fixpoint take_while {A} (p : A → bool) (l : list A) : list A :=
  match l with
  | x :: l' => if p x then x :: take_while p l' else []
  | [] => []
  end.

Fixpoint epochs_of (tr : list Event) : list (Z * list Event) :=
  match tr with
  | [] => []
  | EvIter i :: tr' => (i, take_while in_epoch tr') :: epochs_of tr'
  | _ :: tr' => epochs_of tr'
  end.

(** The leading-axis lengths of the leaves of a training state. *)
Definition leading_axes (ts : TrainingState) : list (option nat) :=
  (λ x, leading_axis (arr_val x)) <$> ts_leaves ts.

Definition on_device (d : Device) (l : Leaves) : Prop :=
  Forall (λ x, arr_dev x = d) l.

(** The sub-keys produced by the splits of a trace. *)
Definition derived_keys (tr : list Event) : list Key :=
  flat_map (λ e, match e with EvSplit _ ks => ks | _ => [] end) tr.

Definition is_stochastic_eval (e : Event) : bool :=
  match e with EvRunEvaluation Stochastic _ _ => true | _ => false end.

Definition is_greedy_eval (e : Event) : bool :=
  match e with EvRunEvaluation Greedy _ _ => true | _ => false end.

(** Evaluation: the evaluator calls and the writes of their results. *)
Definition is_evaluation (e : Event) : bool :=
  match e with
  | EvRunEvaluation _ _ _ => true
  | EvWrite _ label _ => negb (String.eqb label "train")
  | _ => false
  end.

(** The training step: what [epoch_fn] does. *)
Definition is_training (e : Event) : bool :=
  match e with
  | EvDevicePut _ | EvRollout _ _ | EvRolloutRet _ _
  | EvGradientStep _ _ | EvGradientStepRet _ _ => true
  | _ => false
  end.

(** In [l], every [Q]-event has a [P]-event before it, and every
    [P]-event comes before every [Q]-event. *)
Definition strictly_before (P Q : Event → bool) (l : list Event) : Prop :=
  (∀ q e, l !! q = Some e → Q e = true →
     ∃ p e', (p < q)%nat ∧ l !! p = Some e' ∧ P e' = true) ∧
  (∀ p q e e', l !! p = Some e → P e = true → l !! q = Some e' → Q e' = true →
     (p < q)%nat).

Fixpoint preceded (P Q : Event → bool) (l : list Event) : bool :=
  match l with
  | [] => true
  | e :: l' => if Q e then false else if P e then true else preceded P Q l'
  end.

Fixpoint none_after (P Q : Event → bool) (l : list Event) : bool :=
  match l with
  | [] => true
  | e :: l' =>
      if Q e then forallb (λ x, negb (P x)) (e :: l') else none_after P Q l'
  end.

(** The [(data, label, env_steps)] triples a trace hands to the logger. *)
Definition writes (tr : list Event) : list (Metrics * string * Z) :=
  omap (λ e, match e with EvWrite d l s => Some (d, l, s) | _ => None end) tr.

(** The key carried into epoch [j] of a run seeded with [seed]. *)
Definition epoch_key (seed : Z) (j : nat) : Key :=
  Nat.iter j (λ k, SubKey k 3 0) (SubKey (PRNGKey seed) 2 0).

End Reading.

(** ** How one call of each block of the driver can go

    For every block of the loop body an inductive predicate lists the
    event sequences the block can issue, one constructor per way the block
    can end: normally, or at the delegated call that raised. *)

Section Shapes.
Context `{O : Objects} (E : Externals).

Definition value {A} (r : result A) : option A :=
  match r with Ok a => Some a | Raise _ => None end.

Section Blocks.
Variables (gpu_acting : bool) (agent : Agent).
Variables (eval_timer train_timer : Timer) (num_steps_per_epoch : Z).

(** The device the rollout runs on ([None]: values stay where they are)
    and the device the gradient step runs on. *)
Definition acting_device (d : option Device) : Prop :=
  if gpu_acting then d = None
  else ∃ cpu, jax_devices E (Some "cpu"%string) !! 0%nat = Some cpu ∧ d = Some cpu.

Definition learner_device (d : option Device) : Prop :=
  if gpu_acting then d = None
  else ∃ dev, jax_devices E None !! 0%nat = Some dev ∧ d = Some dev.

Definition placed (d : option Device) (l : Leaves) : Leaves :=
  match d with Some d => put_on d <$> l | None => l end.

Definition puts (d : option Device) : list Event :=
  match d with Some d => [EvDevicePut d] | None => [] end.

Definition rollout_call (ts0 : TrainingState) (cpu : option Device) : Event :=
  EvRollout (placed cpu (actor (params (params_state ts0))))
            (placed cpu (acting_state ts0)).

Definition gradient_call (ts0 : TrainingState) (dev : option Device)
    (acting data : Leaves) : Event :=
  EvGradientStep (replace_acting_state ts0 (placed dev acting)) (placed dev data).

Inductive epoch_fn_trace (ts : TrainingState)
    : option (TrainingState * Metrics) → list Event → Prop :=
  | EF_no_replica_axis :
      tree_map_opt index0 ts = None →
      epoch_fn_trace ts None []
  | EF_no_acting_device ts0 :
      tree_map_opt index0 ts = Some ts0 →
      gpu_acting = false →
      jax_devices E (Some "cpu"%string) !! 0%nat = None →
      epoch_fn_trace ts None []
  | EF_rollout_raises ts0 cpu :
      tree_map_opt index0 ts = Some ts0 →
      acting_device cpu →
      epoch_fn_trace ts None (puts cpu ++ [rollout_call ts0 cpu])
  | EF_no_learner_device ts0 cpu acting data :
      tree_map_opt index0 ts = Some ts0 →
      acting_device cpu →
      gpu_acting = false →
      jax_devices E None !! 0%nat = None →
      epoch_fn_trace ts None
        (puts cpu ++ [rollout_call ts0 cpu; EvRolloutRet acting data])
  | EF_gradient_step_raises ts0 cpu acting data dev :
      tree_map_opt index0 ts = Some ts0 →
      acting_device cpu →
      learner_device dev →
      epoch_fn_trace ts None
        (puts cpu ++ [rollout_call ts0 cpu; EvRolloutRet acting data]
         ++ puts dev ++ [gradient_call ts0 dev acting data])
  | EF_returns ts0 cpu acting data dev ts1 raw :
      tree_map_opt index0 ts = Some ts0 →
      acting_device cpu →
      learner_device dev →
      epoch_fn_trace ts (Some (tree_map add_axis ts1, jnp_mean E <$> raw))
        (puts cpu ++ [rollout_call ts0 cpu; EvRolloutRet acting data]
         ++ puts dev ++ [gradient_call ts0 dev acting data;
                         EvGradientStepRet ts1 raw]).

(** One evaluation block; the flag tells whether the block returned. *)
Inductive eval_trace (which : EvalKind) (ps : ParamsState) (k : Key)
    (label : string) (s : Z) : bool → list Event → Prop :=
  | EV_timer_raises :
      eval_trace which ps k label s false [EvTimerEnter eval_timer]
  | EV_raises :
      eval_trace which ps k label s false
        [EvTimerEnter eval_timer; EvRunEvaluation which ps k;
         EvTimerExit eval_timer]
  | EV_logged ok data :
      eval_trace which ps k label s ok
        [EvTimerEnter eval_timer; EvRunEvaluation which ps k;
         EvTimerExit eval_timer; EvWrite data label s].

(** The timer hands [data] back for the mapping [m] bound in its scope. *)
Definition timer_reports (t : Timer) (m data : Metrics) : Prop :=
  ∃ w w', timer_exit E t m w = (Ok data, w').

(** The training block: [epoch_fn] under [train_timer], then the write. *)
Inductive train_trace (ts : TrainingState) (s : Z)
    : option TrainingState → list Event → Prop :=
  | TR_timer_raises :
      train_trace ts s None [EvTimerEnter train_timer]
  | TR_raises r evs :
      epoch_fn_trace ts r evs →
      train_trace ts s None
        (EvTimerEnter train_timer :: evs ++ [EvTimerExit train_timer])
  | TR_logged ts' m evs data ok :
      epoch_fn_trace ts (Some (ts', m)) evs →
      timer_reports train_timer m data →
      train_trace ts s (if ok : bool then Some ts' else None)
        (EvTimerEnter train_timer :: evs
         ++ [EvTimerExit train_timer; EvWrite data "train" s]).

Definition greedy_trace (ps : ParamsState) (k : Key) (s : Z)
    (ok : bool) (evs : list Event) : Prop :=
  if isinstance_RandomAgent E agent then ok = true ∧ evs = []
  else eval_trace Greedy ps k "eval_greedy" s ok evs.

(** One iteration of the loop, from the carried key and training state. *)
Inductive epoch_trace (i : Z) (key : Key) (ts : TrainingState)
    : option (Key * TrainingState) → list Event → Prop :=
  | EP_stochastic_raises e1 :
      eval_trace Stochastic (params_state ts) (SubKey key 3 1)
                 "eval_stochastic" (i * num_steps_per_epoch) false e1 →
      epoch_trace i key ts None (EvSplit key (random_split key 3) :: e1)
  | EP_greedy_raises e1 e2 :
      eval_trace Stochastic (params_state ts) (SubKey key 3 1)
                 "eval_stochastic" (i * num_steps_per_epoch) true e1 →
      greedy_trace (params_state ts) (SubKey key 3 2)
                   (i * num_steps_per_epoch) false e2 →
      epoch_trace i key ts None
        (EvSplit key (random_split key 3) :: e1 ++ e2)
  | EP_trained e1 e2 e3 r :
      eval_trace Stochastic (params_state ts) (SubKey key 3 1)
                 "eval_stochastic" (i * num_steps_per_epoch) true e1 →
      greedy_trace (params_state ts) (SubKey key 3 2)
                   (i * num_steps_per_epoch) true e2 →
      train_trace ts (i * num_steps_per_epoch) r e3 →
      epoch_trace i key ts (pair (SubKey key 3 0) <$> r)
        (EvSplit key (random_split key 3) :: e1 ++ e2 ++ e3).

End Blocks.

(** The loop of a run, once setup has produced its objects. *)
Definition epoch_loop (cfg : Config) (gpu_acting : bool) (logger : Logger)
    (agent : Agent) (evaluators : Evaluator * Evaluator)
    (training_state : TrainingState) : M (Key * TrainingState) :=
  for_each (trange (num_epochs cfg))
    (epoch E gpu_acting logger agent evaluators.1 evaluators.2
           (mkTimer "metrics" None)
           (mkTimer "metrics" (Some (steps_per_epoch cfg)))
           (steps_per_epoch cfg))
    (SubKey (PRNGKey (seed cfg)) 2 0, training_state).

Definition seed_split (cfg : Config) : Event :=
  EvSplit (PRNGKey (seed cfg)) (random_split (PRNGKey (seed cfg)) 2).

(** [agent] is what the constructor call of the run returned. *)
Definition agent_built (cfg : Config) (gpu_acting : bool) (agent : Agent) : Prop :=
  ∃ env nets opt w w',
    A2CAgent E env (n_steps cfg) (total_batch_size cfg) nets opt (a2c cfg)
             gpu_acting w = (Ok agent, w').

(** A run either stops before the logger scope is entered, or enters it,
    runs the loop and leaves the scope. *)
Inductive train_shape (cfg : Config) (gpu_acting : bool) (r : Run unit) : Prop :=
  | TS_not_entered :
      is_ok (outcome r) = false →
      events r = [seed_split cfg] →
      train_shape cfg gpu_acting r
  | TS_entered logger agent evaluators ts w :
      let l := epoch_loop cfg gpu_acting logger agent evaluators ts w in
      agent_built cfg gpu_acting agent →
      (is_ok (outcome r) = true → is_ok (outcome l) = true) →
      events r = seed_split cfg :: EvLoggerEnter :: events l
                 ++ [EvLoggerExit (exc_of (outcome l))] →
      train_shape cfg gpu_acting r.

(** The train timer hands the entry [k] of its mapping back unchanged. *)
Definition timer_keeps (t : Timer) (k : string) : Prop :=
  ∀ m m' w w', timer_exit E t m w = (Ok m', w') → m' !! k = m !! k.

(** *** Runs in which every delegated call returns *)

Definition ext_returns (A : Type) (op : ext A) : Prop :=
  ∀ w, is_ok (op w).1 = true.

(** [P] holds of every call to a component other than the timers. *)
Record components_satisfy (P : ∀ A, ext A → Prop) : Prop := {
  cs_setup_logger : ∀ cfg, P _ (setup_logger E cfg);
  cs_setup_env : ∀ cfg, P _ (setup_env E cfg);
  cs_setup_networks : ∀ cfg env, P _ (_setup_actor_critic_neworks E cfg env);
  cs_optax_adam : ∀ lr, P _ (optax_adam E lr);
  cs_A2CAgent : ∀ env n b nets opt a g, P _ (A2CAgent E env n b nets opt a g);
  cs_setup_evaluators : ∀ cfg agent, P _ (setup_evaluators E cfg agent);
  cs_setup_training_state :
    ∀ env agent k, P _ (setup_training_state E env agent k);
  cs_run_evaluation : ∀ ev ps k, P _ (run_evaluation E ev ps k);
  cs_block_until_ready : P _ (block_until_ready E);
  cs_first_from_device : ∀ m, P _ (first_from_device E m);
  cs_logger_enter : ∀ l, P _ (logger_enter E l);
  cs_logger_exit : ∀ l exc, P _ (logger_exit E l exc);
  cs_logger_write : ∀ l d label s, P _ (logger_write E l d label s);
  cs_log_compiles_enter : ∀ b, P _ (log_compiles_enter E b);
  cs_log_compiles_exit : ∀ b exc, P _ (log_compiles_exit E b exc);
  cs_rollout : ∀ agent p a, P _ (rollout E agent p a);
  cs_gradient_step : ∀ agent ts d, P _ (gradient_step E agent ts d);
}.

(** [P] holds of every call to a timer. *)
Record timers_satisfy (P : ∀ A, ext A → Prop) : Prop := {
  ts_timer_enter : ∀ t, P _ (timer_enter E t);
  ts_timer_exit : ∀ t m, P _ (timer_exit E t m);
  ts_timer_abort : ∀ t e, P _ (timer_abort E t e);
}.

(** Index 0 can be taken of every leaf. *)
Definition replicated (ts : TrainingState) : Prop :=
  is_Some (tree_map_opt index0 ts).

(** Setup hands the loop a training state with a replica axis, and the
    devices the driver asks for exist. *)
Definition well_set_up : Prop :=
  (∀ env agent k w ts w',
     setup_training_state E env agent k w = (Ok ts, w') → replicated ts) ∧
  (∀ backend, is_Some (jax_devices E backend !! 0%nat)).

(** [m] returns, with a value satisfying [Q]. *)
Definition returns {A} (m : M A) (Q : A → Prop) : Prop :=
  ∀ w, ∃ a, outcome (m w) = Ok a ∧ Q a.

(** *** Two runs side by side *)

Section Relational.
Variable R : World → World → Prop.

(** A delegated call does not tell [R]-related worlds apart. *)
Definition ext_det (A : Type) (op : ext A) : Prop :=
  ∀ w1 w2, R w1 w2 → (op w1).1 = (op w2).1 ∧ R (op w1).2 (op w2).2.

Definition det {A} (m : M A) : Prop :=
  ∀ w1 w2, R w1 w2 →
    outcome (m w1) = outcome (m w2) ∧ events (m w1) = events (m w2) ∧
    R (world (m w1)) (world (m w2)).

End Relational.

End Shapes.

(** ** A small concrete instance

    The hidden world is a clock, which every component but the timers
    ignores.  [fail_env] makes [setup_env] raise, [random] makes the
    constructed agent pass the [RandomAgent] instance check, and with
    [clocked] the timers write the clock into the mapping they report into
    and advance it. *)

Module Demo.

#[export] Instance demo_objects : Objects := {|
  World := Z;
  Elt := Z;
  Logger := unit;
  Env := unit;
  Networks := unit;
  Optimizer := unit;
  Agent := bool;
  Evaluator := EvalKind;
|}.

Definition scalar (v : Z) : Array := mkArray (Scalar v) (Gpu 0).
Definition vector (vs : list Z) : Array :=
  mkArray (Stack (map Scalar vs)) (Gpu 0).

(** A training state replicated [n] times along the leading axis. *)
Definition replicated_state (n : nat) : TrainingState :=
  let leaf v := mkArray (Stack (replicate n (Scalar v))) (Gpu 0) in
  mkTrainingState (mkParamsState (mkParams [leaf 1] [leaf 2]) [leaf 3]) [leaf 4].

Definition pure {A} (a : A) : ext A := λ w, (Ok a, w).

Definition demo (fail_env random clocked : bool) : Externals := {|
  setup_logger _ := pure tt;
  setup_env _ :=
    if fail_env then λ w, (Raise (RuntimeError "no such environment"), w)
    else pure tt;
  _setup_actor_critic_neworks _ _ := pure tt;
  optax_adam _ := pure tt;
  A2CAgent _ _ _ _ _ _ _ := pure random;
  setup_evaluators _ _ := pure (Stochastic, Greedy);
  setup_training_state _ _ _ := pure (replicated_state 1);
  isinstance_RandomAgent a := a;
  run_evaluation _ _ _ := pure {[ "episode_return"%string := vector [5] ]};
  block_until_ready := pure tt;
  first_from_device m := pure m;
  logger_enter _ := pure tt;
  logger_exit _ _ := pure tt;
  logger_write _ _ _ _ := pure tt;
  log_compiles_enter _ := pure tt;
  log_compiles_exit _ _ := pure tt;
  timer_enter _ := pure tt;
  timer_exit _ m :=
    if clocked
    then λ clock, (Ok (<[ "time"%string := scalar clock ]> m), clock + 1)
    else pure m;
  timer_abort _ _ := pure tt;
  jax_devices backend :=
    match backend with Some _ => [Cpu 0] | None => [Gpu 0; Cpu 0] end;
  rollout _ _ acting := pure (acting, [vector [1; 2; 3]]);
  gradient_step _ ts _ := pure (ts, {[ "loss"%string := vector [2; 4] ]});
  mean_of l := foldr Z.add 0 l `div` Z.of_nat (length l);
|}.

Definition demo_cfg : Config := {|
  seed := 42;
  n_steps := 2;
  total_batch_size := 3;
  num_learner_steps_per_epoch := 5;
  num_epochs := 2;
  a2c := mkA2C 0 true 0 0 0 0 0;
|}.

(** The run used in the examples, and the events of its epoch [j]. *)
Definition demo_run : Run unit :=
  train (demo false false true) demo_cfg false false 0.

Definition demo_epoch (j : nat) : list Event :=
  (default (0, []) (epochs_of (events demo_run) !! j)).2.

(** What [demo_run] logs under ["train"] in epoch 0: the mean of the raw
    loss, and the reading of the clock the train timer added. *)
Definition demo_train_data : Metrics :=
  <[ "time"%string := scalar 2 ]>
    (jnp_mean (demo false false true) <$> {[ "loss"%string := vector [2; 4] ]}).

End Demo.

(** ** Shapes of a whole run

    The setup calls, the ways a run can end, and the chain of epochs of
    the loop. *)

Section LoopShapes.
Context `{O : Objects} (E : Externals).

(** The setup calls that open [train], in the order of the source: each
    call starts in the world the previous one left, the environment goes
    to the networks, the agent and the training state, the agent to the
    evaluators and the training state, and the training state is
    initialised from [init_key], the second half of the seed split. *)
Inductive setup_trace (cfg : Config) (gpu_acting : bool) (w0 : World)
    : Logger → Agent → Evaluator * Evaluator → TrainingState → World → Prop :=
  | Setup_done logger w1 env w2 nets w3 opt w4 agent w5 evaluators w6 ts w7 :
      setup_logger E cfg w0 = (Ok logger, w1) →
      setup_env E cfg w1 = (Ok env, w2) →
      _setup_actor_critic_neworks E cfg env w2 = (Ok nets, w3) →
      optax_adam E (learning_rate (a2c cfg)) w3 = (Ok opt, w4) →
      A2CAgent E env (n_steps cfg) (total_batch_size cfg) nets opt (a2c cfg)
               gpu_acting w4 = (Ok agent, w5) →
      setup_evaluators E cfg agent w5 = (Ok evaluators, w6) →
      setup_training_state E env agent (SubKey (PRNGKey (seed cfg)) 2 1) w6
        = (Ok ts, w7) →
      setup_trace cfg gpu_acting w0 logger agent evaluators ts w7.

(** The first setup call that raises, with its exception and the world it
    leaves. *)
Inductive setup_fails (cfg : Config) (gpu_acting : bool) (w0 : World)
    : Exn → World → Prop :=
  | SF_logger e w1 :
      setup_logger E cfg w0 = (Raise e, w1) →
      setup_fails cfg gpu_acting w0 e w1
  | SF_env logger w1 e w2 :
      setup_logger E cfg w0 = (Ok logger, w1) →
      setup_env E cfg w1 = (Raise e, w2) →
      setup_fails cfg gpu_acting w0 e w2
  | SF_networks logger w1 env w2 e w3 :
      setup_logger E cfg w0 = (Ok logger, w1) →
      setup_env E cfg w1 = (Ok env, w2) →
      _setup_actor_critic_neworks E cfg env w2 = (Raise e, w3) →
      setup_fails cfg gpu_acting w0 e w3
  | SF_optimizer logger w1 env w2 nets w3 e w4 :
      setup_logger E cfg w0 = (Ok logger, w1) →
      setup_env E cfg w1 = (Ok env, w2) →
      _setup_actor_critic_neworks E cfg env w2 = (Ok nets, w3) →
      optax_adam E (learning_rate (a2c cfg)) w3 = (Raise e, w4) →
      setup_fails cfg gpu_acting w0 e w4
  | SF_agent logger w1 env w2 nets w3 opt w4 e w5 :
      setup_logger E cfg w0 = (Ok logger, w1) →
      setup_env E cfg w1 = (Ok env, w2) →
      _setup_actor_critic_neworks E cfg env w2 = (Ok nets, w3) →
      optax_adam E (learning_rate (a2c cfg)) w3 = (Ok opt, w4) →
      A2CAgent E env (n_steps cfg) (total_batch_size cfg) nets opt (a2c cfg)
               gpu_acting w4 = (Raise e, w5) →
      setup_fails cfg gpu_acting w0 e w5
  | SF_evaluators logger w1 env w2 nets w3 opt w4 agent w5 e w6 :
      setup_logger E cfg w0 = (Ok logger, w1) →
      setup_env E cfg w1 = (Ok env, w2) →
      _setup_actor_critic_neworks E cfg env w2 = (Ok nets, w3) →
      optax_adam E (learning_rate (a2c cfg)) w3 = (Ok opt, w4) →
      A2CAgent E env (n_steps cfg) (total_batch_size cfg) nets opt (a2c cfg)
               gpu_acting w4 = (Ok agent, w5) →
      setup_evaluators E cfg agent w5 = (Raise e, w6) →
      setup_fails cfg gpu_acting w0 e w6
  | SF_training_state logger w1 env w2 nets w3 opt w4 agent w5 evaluators w6 e w7 :
      setup_logger E cfg w0 = (Ok logger, w1) →
      setup_env E cfg w1 = (Ok env, w2) →
      _setup_actor_critic_neworks E cfg env w2 = (Ok nets, w3) →
      optax_adam E (learning_rate (a2c cfg)) w3 = (Ok opt, w4) →
      A2CAgent E env (n_steps cfg) (total_batch_size cfg) nets opt (a2c cfg)
               gpu_acting w4 = (Ok agent, w5) →
      setup_evaluators E cfg agent w5 = (Ok evaluators, w6) →
      setup_training_state E env agent (SubKey (PRNGKey (seed cfg)) 2 1) w6
        = (Raise e, w7) →
      setup_fails cfg gpu_acting w0 e w7.

(** What a [with] block ends with, given what its exit call did: the
    exception of the exit call, or else the outcome of the body. *)
Definition after_exit {A} (x : result unit * World) (r : result A) : result A :=
  match x.1 with
  | Ok _ => r
  | Raise e => Raise e
  end.

(** The outcome of [train] once the loop [l] has ended: the logger scope
    is left first, then the [log_compiles] scope. *)
Definition leave_scopes (log_compiles : bool) (logger : Logger)
    (l : Run (Key * TrainingState)) : result unit :=
  let r0 := match outcome l with Ok _ => Ok tt | Raise e => Raise e end in
  let x1 := logger_exit E logger (exc_of r0) (world l) in
  let r1 := after_exit x1 r0 in
  after_exit (log_compiles_exit E log_compiles (exc_of r1) x1.2) r1.

(** The four ways a run of [train] can go. *)
Inductive run_shape (cfg : Config) (log_compiles gpu_acting : bool) (w : World)
    (r : Run unit) : Prop :=
  | RS_setup_fails e w' :
      setup_fails cfg gpu_acting w e w' →
      r = mkRun (Raise e) w' [seed_split cfg] →
      run_shape cfg log_compiles gpu_acting w r
  | RS_log_compiles_fails logger agent evaluators ts w7 e w8 :
      setup_trace cfg gpu_acting w logger agent evaluators ts w7 →
      log_compiles_enter E log_compiles w7 = (Raise e, w8) →
      r = mkRun (Raise e) w8 [seed_split cfg] →
      run_shape cfg log_compiles gpu_acting w r
  | RS_logger_fails logger agent evaluators ts w7 w8 e w9 :
      setup_trace cfg gpu_acting w logger agent evaluators ts w7 →
      log_compiles_enter E log_compiles w7 = (Ok tt, w8) →
      logger_enter E logger w8 = (Raise e, w9) →
      outcome r = after_exit (log_compiles_exit E log_compiles (Some e) w9)
                             (Raise e) →
      events r = [seed_split cfg] →
      run_shape cfg log_compiles gpu_acting w r
  | RS_entered logger agent evaluators ts w7 w8 w9 :
      let l := epoch_loop E cfg gpu_acting logger agent evaluators ts w9 in
      setup_trace cfg gpu_acting w logger agent evaluators ts w7 →
      log_compiles_enter E log_compiles w7 = (Ok tt, w8) →
      logger_enter E logger w8 = (Ok tt, w9) →
      outcome r = leave_scopes log_compiles logger l →
      events r = seed_split cfg :: EvLoggerEnter :: events l
                 ++ [EvLoggerExit (exc_of (outcome l))] →
      run_shape cfg log_compiles gpu_acting w r.

Section Chain.
Variables (gpu_acting : bool) (agent : Agent).
Variables (eval_timer train_timer : Timer) (num_steps_per_epoch : Z).

(** The epochs of a loop over [xs], from the key and the training state
    carried into it: every epoch but the last returned, handing its first
    sub-key and the state of its training step to the next; the flag tells
    whether the loop ran to its end. *)
Inductive loop_trace
    : list Z → Key → TrainingState → list (Z * list Event) → bool → Prop :=
  | LT_done key ts :
      loop_trace [] key ts [] true
  | LT_raises i xs key ts evs :
      epoch_trace E gpu_acting agent eval_timer train_timer num_steps_per_epoch
        i key ts None evs →
      loop_trace (i :: xs) key ts [(i, evs)] false
  | LT_next i xs key ts ts' evs rest ok :
      epoch_trace E gpu_acting agent eval_timer train_timer num_steps_per_epoch
        i key ts (Some (SubKey key 3 0, ts')) evs →
      loop_trace xs (SubKey key 3 0) ts' rest ok →
      loop_trace (i :: xs) key ts ((i, evs) :: rest) ok.

End Chain.

End LoopShapes.

Section Logs.
Context `{O : Objects}.

(** What a trace hands to the logger, without the data: the label and
    [env_steps] of every write, in order. *)
Definition log_lines (tr : list Event) : list (string * Z) :=
  (λ x, (x.1.2, x.2)) <$> writes tr.

(** The labels an epoch that runs to its end writes under, in order; the
    flag tells whether the agent is a [RandomAgent]. *)
Definition epoch_labels (random : bool) : list string :=
  if random then ["eval_stochastic"; "train"]
  else ["eval_stochastic"; "eval_greedy"; "train"].

(** The label an evaluation is logged under. *)
Definition eval_label (which : EvalKind) : string :=
  match which with
  | Stochastic => "eval_stochastic"
  | Greedy => "eval_greedy"
  end.

(** The lines a run over [range(num_epochs)] writes when nothing raises. *)
Definition log_schedule (random : bool) (num_epochs num_steps_per_epoch : Z)
    : list (string * Z) :=
  flat_map (λ i, (λ l, (l, i * num_steps_per_epoch)) <$> epoch_labels random)
           (seqZ 0 num_epochs).

#[global] Instance Timer_eq_dec : EqDecision Timer.
Proof. solve_decision. Defined.

(** Timing scopes are well bracketed: a scope is opened only when none is
    open and is closed by the timer that opened it; the evaluator runs
    inside a scope of [eval_timer]; the device transfers, the rollout and
    the gradient step run inside a scope of [train_timer]; keys are split
    and results are written outside.  [open] is the timer of the scope the
    events lie in.  A trace may stop right after the opening of a scope,
    when entering the timer raised. *)
Fixpoint scoped (eval_timer train_timer : Timer) (open : option Timer)
    (l : list Event) : bool :=
  match l with
  | [] => bool_decide (open = None)
  | e :: l' =>
      match e with
      | EvTimerEnter t =>
          bool_decide (open = None) &&
          match l' with
          | [] => true
          | _ => scoped eval_timer train_timer (Some t) l'
          end
      | EvTimerExit t =>
          bool_decide (open = Some t) && scoped eval_timer train_timer None l'
      | EvWrite _ _ _ | EvSplit _ _ =>
          bool_decide (open = None) && scoped eval_timer train_timer open l'
      | EvRunEvaluation _ _ _ =>
          bool_decide (open = Some eval_timer)
          && scoped eval_timer train_timer open l'
      | EvDevicePut _ | EvRollout _ _ | EvRolloutRet _ _
      | EvGradientStep _ _ | EvGradientStepRet _ _ =>
          bool_decide (open = Some train_timer)
          && scoped eval_timer train_timer open l'
      | EvIter _ | EvLoggerEnter | EvLoggerExit _ =>
          scoped eval_timer train_timer open l'
      end
  end.

End Logs.

Section Ends.
Context `{O : Objects} (E : Externals).

(** [m] ends with a value satisfying [Q] or an exception satisfying [X]. *)
Definition ends {A} (m : M A) (Q : A → Prop) (X : Exn → Prop) : Prop :=
  ∀ w, match outcome (m w) with Ok a => Q a | Raise e => X e end.

(** What [epoch_fn] needs besides the delegated calls: index 0 of every
    leaf and, unless the rollout stays on the accelerator, the two devices
    it asks for. *)
Definition runnable (gpu_acting : bool) (ts : TrainingState) : Prop :=
  replicated ts ∧
  (gpu_acting = false →
   is_Some (jax_devices E (Some "cpu"%string) !! 0%nat) ∧
   is_Some (jax_devices E None !! 0%nat)).

End Ends.

(** ** Two more concrete instances

    Setup hands the loop a training state of its choice, and a
    configuration asks for no epoch at all. *)

Module Edge.
Import Demo.

(** A training state whose leaves have no replica axis. *)
Definition bare_state : TrainingState :=
  mkTrainingState (mkParamsState (mkParams [scalar 1] [scalar 2]) [scalar 3])
                  [scalar 4].

(** [demo false false false], except that [setup_training_state] returns
    [ts]. *)
Definition handing_over (ts : TrainingState) : Externals :=
  let D := demo false false false in {|
  setup_logger := setup_logger D;
  setup_env := setup_env D;
  _setup_actor_critic_neworks := _setup_actor_critic_neworks D;
  optax_adam := optax_adam D;
  A2CAgent := A2CAgent D;
  setup_evaluators := setup_evaluators D;
  setup_training_state _ _ _ := pure ts;
  isinstance_RandomAgent := isinstance_RandomAgent D;
  run_evaluation := run_evaluation D;
  block_until_ready := block_until_ready D;
  first_from_device := first_from_device D;
  logger_enter := logger_enter D;
  logger_exit := logger_exit D;
  logger_write := logger_write D;
  log_compiles_enter := log_compiles_enter D;
  log_compiles_exit := log_compiles_exit D;
  timer_enter := timer_enter D;
  timer_exit := timer_exit D;
  timer_abort := timer_abort D;
  jax_devices := jax_devices D;
  rollout := rollout D;
  gradient_step := gradient_step D;
  mean_of := mean_of D;
|}.

(** [demo_cfg] with a negative number of epochs. *)
Definition no_epochs_cfg : Config := {|
  seed := seed demo_cfg;
  n_steps := n_steps demo_cfg;
  total_batch_size := total_batch_size demo_cfg;
  num_learner_steps_per_epoch := num_learner_steps_per_epoch demo_cfg;
  num_epochs := -3;
  a2c := a2c demo_cfg;
|}.

End Edge.

(** ** An epoch that runs to its end

    The events of an evaluation block and of the training block when
    nothing raises. *)

Section Complete.
Context `{O : Objects}.

Definition evaluation_events (t : Timer) (which : EvalKind) (ps : ParamsState)
    (k : Key) (data : Metrics) (s : Z) : list Event :=
  [EvTimerEnter t; EvRunEvaluation which ps k; EvTimerExit t;
   EvWrite data (eval_label which) s].

Definition training_events (t : Timer) (ts0 : TrainingState)
    (cpu dev : option Device) (acting data0 : Leaves) (ts1 : TrainingState)
    (raw data : Metrics) (s : Z) : list Event :=
  EvTimerEnter t
  :: (puts cpu ++ [rollout_call ts0 cpu; EvRolloutRet acting data0]
      ++ puts dev ++ [gradient_call ts0 dev acting data0;
                      EvGradientStepRet ts1 raw])
  ++ [EvTimerExit t; EvWrite data "train" s].

End Complete.

(** ** Two instances with a fault

    An evaluator that raises, and a gradient step that reports a metric
    under the name the clocked timers of [demo] write to. *)

Module Faults.
Import Demo.

(** [demo false false false], except that [run_evaluation] raises. *)
Definition evaluation_raises : Externals :=
  let D := demo false false false in {|
  setup_logger := setup_logger D;
  setup_env := setup_env D;
  _setup_actor_critic_neworks := _setup_actor_critic_neworks D;
  optax_adam := optax_adam D;
  A2CAgent := A2CAgent D;
  setup_evaluators := setup_evaluators D;
  setup_training_state := setup_training_state D;
  isinstance_RandomAgent := isinstance_RandomAgent D;
  run_evaluation _ _ _ := λ w, (Raise (RuntimeError "evaluation failed"), w);
  block_until_ready := block_until_ready D;
  first_from_device := first_from_device D;
  logger_enter := logger_enter D;
  logger_exit := logger_exit D;
  logger_write := logger_write D;
  log_compiles_enter := log_compiles_enter D;
  log_compiles_exit := log_compiles_exit D;
  timer_enter := timer_enter D;
  timer_exit := timer_exit D;
  timer_abort := timer_abort D;
  jax_devices := jax_devices D;
  rollout := rollout D;
  gradient_step := gradient_step D;
  mean_of := mean_of D;
|}.

(** [demo false false true], except that the gradient step reports its
    metric under the name ["time"]. *)
Definition time_metric : Externals :=
  let D := demo false false true in {|
  setup_logger := setup_logger D;
  setup_env := setup_env D;
  _setup_actor_critic_neworks := _setup_actor_critic_neworks D;
  optax_adam := optax_adam D;
  A2CAgent := A2CAgent D;
  setup_evaluators := setup_evaluators D;
  setup_training_state := setup_training_state D;
  isinstance_RandomAgent := isinstance_RandomAgent D;
  run_evaluation := run_evaluation D;
  block_until_ready := block_until_ready D;
  first_from_device := first_from_device D;
  logger_enter := logger_enter D;
  logger_exit := logger_exit D;
  logger_write := logger_write D;
  log_compiles_enter := log_compiles_enter D;
  log_compiles_exit := log_compiles_exit D;
  timer_enter := timer_enter D;
  timer_exit := timer_exit D;
  timer_abort := timer_abort D;
  jax_devices := jax_devices D;
  rollout := rollout D;
  gradient_step _ ts _ := pure (ts, {[ "time"%string := vector [2; 4] ]});
  mean_of := mean_of D;
|}.

(** [demo_cfg] with a seed that does not fit 64 bits. *)
Definition wide_seed_cfg : Config := {|
  seed := 2 ^ 63;
  n_steps := n_steps demo_cfg;
  total_batch_size := total_batch_size demo_cfg;
  num_learner_steps_per_epoch := num_learner_steps_per_epoch demo_cfg;
  num_epochs := num_epochs demo_cfg;
  a2c := a2c demo_cfg;
|}.

End Faults.

(** ** Proof steps shared by the lemmas below *)

Ltac run_driver :=
  unfold mbind, mret, M_bind, M_ret, bind, ret, finally, call, emit, raise,
    of_option, of_result in *.

(** Case analysis on how a call of [epoch_fn] went. *)
Ltac fn_cases H :=
  inversion H; subst; clear H;
  unfold acting_device, learner_device in *; simpl in *;
  repeat match goal with
         | H : ∃ _, _ |- _ => destruct H as (? & ? & ?)
         end;
  simplify_eq/=;
  repeat match goal with
         | H : _ = events _ |- _ => rewrite <- H in *; clear H
         end;
  unfold rollout_call, gradient_call in *; simpl in *.

(** Case analysis on how an epoch went, down to the list of its events. *)
Ltac epoch_cases H :=
  inversion H; subst; clear H;
  unfold greedy_trace in *;
  repeat match goal with
         | H : if isinstance_RandomAgent ?E ?a then _ else _ |- _ =>
             destruct (isinstance_RandomAgent E a) eqn:?
         | H : _ ∧ _ |- _ => destruct H
         | H : eval_trace _ _ _ _ _ _ _ _ |- _ => inversion H; subst; clear H
         | H : train_trace _ _ _ _ _ _ _ |- _ => inversion H; subst; clear H
         end;
  repeat match goal with
         | H : epoch_fn_trace _ ?g _ _ _ |- _ =>
             inversion H; subst; clear H;
             unfold acting_device, learner_device in *
         end;
  repeat match goal with
         | H : if ?g then _ else _ |- _ => destruct g eqn:?
         | H : ∃ _, _ |- _ => destruct H as (? & ? & ?)
         end;
  simplify_eq/=;
  unfold rollout_call, gradient_call in *; simpl in *.

(** Point at an event of a list that is written out. *)
Ltac find_elem :=
  repeat first [apply list_elem_of_here | apply list_elem_of_further].

(** A list of keys that is written out has no repetition. *)
Ltac nodup_keys :=
  repeat (apply NoDup_cons_2;
          [let H := fresh in
           intros H; set_unfold in H; destruct_or?; by simplify_eq|]);
  apply NoDup_nil_2.

(** ** The blocks follow their traces *)

Section BlockLemmas.
Context `{O : Objects} (E : Externals).
Variables (gpu_acting : bool) (logger : Logger) (agent : Agent).
Variables (stochastic_eval greedy_eval : Evaluator).
Variables (eval_timer train_timer : Timer) (num_steps_per_epoch : Z).

Lemma acting_device_here : acting_device E true None.
Proof. done. Qed.

Lemma learner_device_here : learner_device E true None.
Proof. done. Qed.

Lemma acting_device_cpu cpu :
  jax_devices E (Some "cpu"%string) !! 0%nat = Some cpu →
  acting_device E false (Some cpu).
Proof. unfold acting_device. eauto. Qed.

Lemma learner_device_first dev :
  jax_devices E None !! 0%nat = Some dev →
  learner_device E false (Some dev).
Proof. unfold learner_device. eauto. Qed.

Lemma epoch_fn_run ts w :
  epoch_fn_trace E gpu_acting ts (value (outcome (epoch_fn E gpu_acting agent ts w)))
                 (events (epoch_fn E gpu_acting agent ts w)).
Proof.
  unfold epoch_fn, first_device, device_put. run_driver.
  destruct (tree_map_opt index0 ts) as [ts0|] eqn:Hts; simpl;
    [|by apply EF_no_replica_axis].
  destruct gpu_acting eqn:Hg; simpl.
  - pose proof acting_device_here as Hcpu.
    pose proof learner_device_here as Hdev.
    destruct (rollout E agent _ _ w) as [[[a d]|e] w1] eqn:Hr; simpl;
      [|by apply (EF_rollout_raises E true ts ts0 None)].
    destruct (gradient_step E agent _ _ w1) as [[[ts1 raw]|e] w2] eqn:Hs; simpl.
    + by apply (EF_returns E true ts ts0 None a d None).
    + by apply (EF_gradient_step_raises E true ts ts0 None a d None).
  - destruct (jax_devices E (Some "cpu"%string) !! 0%nat) as [cpu|] eqn:Hc; simpl;
      [|by eapply EF_no_acting_device].
    pose proof (acting_device_cpu cpu Hc) as Hcpu.
    destruct (rollout E agent _ _ w) as [[[a d]|e] w1] eqn:Hr; simpl;
      [|by apply (EF_rollout_raises E false ts ts0 (Some cpu))].
    destruct (jax_devices E None !! 0%nat) as [dev|] eqn:Hd; simpl;
      [|by apply (EF_no_learner_device E false ts ts0 (Some cpu) a d)].
    pose proof (learner_device_first dev Hd) as Hdev.
    destruct (gradient_step E agent _ _ w1) as [[[ts1 raw]|e] w2] eqn:Hs; simpl.
    + by apply (EF_returns E false ts ts0 (Some cpu) a d (Some dev)).
    + by apply (EF_gradient_step_raises E false ts ts0 (Some cpu) a d (Some dev)).
Qed.

Lemma bind_run {A B} (m : M A) (f : A → M B) w :
  (m ≫= f) w =
  match outcome (m w) with
  | Ok a =>
      mkRun (outcome (f a (world (m w)))) (world (f a (world (m w))))
            (events (m w) ++ events (f a (world (m w))))
  | Raise e => mkRun (Raise e) (world (m w)) (events (m w))
  end.
Proof.
  unfold mbind, M_bind, bind.
  destruct (m w) as [[a|e] w' evs]; simpl; [|done].
  by destruct (f a w').
Qed.

Lemma evaluate_run which evaluator label ps k s w :
  eval_trace eval_timer which ps k label s
    (is_ok (outcome (evaluate E logger eval_timer which evaluator label ps k s w)))
    (events (evaluate E logger eval_timer which evaluator label ps k s w)).
Proof.
  unfold evaluate, timed, write. run_driver.
  destruct (timer_enter E eval_timer w) as [[[]|e] w1]; simpl; [|constructor].
  destruct (run_evaluation E evaluator ps k w1) as [[m|e] w2]; simpl.
  - destruct (block_until_ready E w2) as [[[]|e] w3]; simpl.
    + destruct (timer_exit E eval_timer m w3) as [[m'|e] w4]; simpl; [|constructor].
      destruct (first_from_device E m' w4) as [[data|e] w5]; simpl; [|constructor].
      destruct (logger_write E logger data label s w5) as [[[]|e] w6]; simpl;
        constructor.
    + destruct (timer_abort E eval_timer e w3) as [[[]|e'] w4]; simpl; constructor.
  - destruct (timer_abort E eval_timer e w2) as [[[]|e'] w3]; simpl; constructor.
Qed.

Lemma train_step_run ts s w :
  train_trace E gpu_acting train_timer ts s
    (value (outcome (train_step E gpu_acting logger agent train_timer ts s w)))
    (events (train_step E gpu_acting logger agent train_timer ts s w)).
Proof.
  unfold train_step, timed, write. run_driver.
  destruct (timer_enter E train_timer w) as [[[]|e] w1]; simpl; [|constructor].
  pose proof (epoch_fn_run ts w1) as Hfn.
  destruct (epoch_fn E gpu_acting agent ts w1) as [[[ts' m]|e] w2 evs];
    simpl in *.
  - destruct (block_until_ready E w2) as [[[]|e] w3]; simpl.
    + rewrite app_nil_r.
      destruct (timer_exit E train_timer m w3) as [[data|e] w4] eqn:Hexit; simpl.
      * assert (timer_reports E train_timer m data) as Hrep by (by exists w3, w4).
        destruct (logger_write E logger data "train" s w4) as [[[]|e] w5]; simpl;
          rewrite <- app_assoc; simpl.
        -- by apply (TR_logged E gpu_acting train_timer ts s ts' m evs data true).
        -- by apply (TR_logged E gpu_acting train_timer ts s ts' m evs data false).
      * by eapply TR_raises.
    + rewrite app_nil_r.
      destruct (timer_abort E train_timer e w3) as [[[]|e'] w4]; simpl;
        by eapply TR_raises.
  - destruct (timer_abort E train_timer e w2) as [[[]|e'] w3]; simpl;
      by eapply TR_raises.
Qed.

Lemma epoch_run i key ts w :
  epoch_trace E gpu_acting agent eval_timer train_timer num_steps_per_epoch
    i key ts
    (value (outcome (epoch E gpu_acting logger agent stochastic_eval greedy_eval
                           eval_timer train_timer num_steps_per_epoch
                           i (key, ts) w)))
    (events (epoch E gpu_acting logger agent stochastic_eval greedy_eval
                   eval_timer train_timer num_steps_per_epoch i (key, ts) w)).
Proof.
  unfold epoch, split, unpack3; simpl.
  rewrite bind_run; simpl. rewrite bind_run; simpl.
  rewrite bind_run; simpl. rewrite bind_run; simpl.
  pose proof (evaluate_run Stochastic stochastic_eval "eval_stochastic"
                (params_state ts) (SubKey key 3 1)
                (i * num_steps_per_epoch) w) as H1.
  destruct (evaluate _ _ _ Stochastic _ _ _ _ _ w) as [[[]|e] w1 e1];
    simpl in *; [|by apply EP_stochastic_raises].
  assert (∃ r2 : Run unit,
    (if negb (isinstance_RandomAgent E agent)
     then evaluate E logger eval_timer Greedy greedy_eval "eval_greedy"
            (params_state ts) (SubKey key 3 2) (i * num_steps_per_epoch)
     else mret ()) w1 = r2 ∧
    greedy_trace E agent eval_timer (params_state ts) (SubKey key 3 2) (i * num_steps_per_epoch)
                 (is_ok (outcome r2)) (events r2)) as (r2 & -> & H2).
  { eexists; split; [done|]. unfold greedy_trace.
    destruct (isinstance_RandomAgent E agent); simpl; [done|].
    apply evaluate_run. }
  destruct r2 as [[[]|e] w2 e2]; simpl in *; [|by apply EP_greedy_raises].
  rewrite bind_run; simpl.
  pose proof (train_step_run ts (i * num_steps_per_epoch) w2) as H3.
  destruct (train_step _ _ _ _ _ ts _ w2) as [[ts'|e] w3 e3]; simpl in *.
  - rewrite app_nil_r.
    by apply (EP_trained E gpu_acting agent eval_timer train_timer
                 num_steps_per_epoch i key ts e1 e2 e3 (Some ts')).
  - by apply (EP_trained E gpu_acting agent eval_timer train_timer
                 num_steps_per_epoch i key ts e1 e2 e3 None).
Qed.

End BlockLemmas.

(** ** The trace of the loop and of a whole run *)

Section Runs.
Context `{O : Objects} (E : Externals).

Lemma take_while_app_stop {A} (p : A → bool) l r :
  Forall (λ x, p x = true) l →
  (r = [] ∨ ∃ x r', r = x :: r' ∧ p x = false) →
  take_while p (l ++ r) = l.
Proof.
  intros Hl Hr. induction Hl as [|x l Hx _ IH]; simpl.
  - destruct Hr as [->|(x & r' & -> & Hx)]; [done|]. simpl. by rewrite Hx.
  - by rewrite Hx, IH.
Qed.

Lemma epochs_of_app_inside l r :
  Forall (λ e, in_epoch e = true) l → epochs_of (l ++ r) = epochs_of r.
Proof.
  induction 1 as [|e l He _ IH]; simpl; [done|].
  by destruct e.
Qed.

Lemma epochs_of_no_iter l :
  Forall (λ e, ∀ i, e ≠ EvIter i) l → epochs_of l = [].
Proof.
  induction 1 as [|e l He _ IH]; simpl; [done|].
  destruct e; try done. by destruct (He i).
Qed.

Section Loop.
Variables (gpu_acting : bool) (logger : Logger) (agent : Agent).
Variables (stochastic_eval greedy_eval : Evaluator).
Variables (eval_timer train_timer : Timer) (num_steps_per_epoch : Z).

Lemma for_each_cons {S} (f : Z → S → M S) i xs s w :
  for_each (i :: xs) f s w =
  match outcome (f i s w) with
  | Ok s' =>
      mkRun (outcome (for_each xs f s' (world (f i s w))))
            (world (for_each xs f s' (world (f i s w))))
            (EvIter i :: events (f i s w)
             ++ events (for_each xs f s' (world (f i s w))))
  | Raise e => mkRun (Raise e) (world (f i s w)) (EvIter i :: events (f i s w))
  end.
Proof.
  simpl. rewrite bind_run; simpl. rewrite bind_run.
  by destruct (outcome (f i s w)).
Qed.

Lemma for_each_starts {S} (f : Z → S → M S) xs s w :
  events (for_each xs f s w) = [] ∨
  ∃ x r', events (for_each xs f s w) = x :: r' ∧ in_epoch x = false.
Proof.
  destruct xs as [|i xs]; [by left|right].
  rewrite for_each_cons. destruct (outcome (f i s w)); simpl; eauto.
Qed.

(** Which events an epoch can issue. *)
Lemma epoch_trace_alphabet (P : Event → Prop) i key ts r evs :
  epoch_trace E gpu_acting agent eval_timer train_timer num_steps_per_epoch
    i key ts r evs →
  P (EvSplit key (random_split key 3)) →
  (∀ t, P (EvTimerEnter t)) →
  (∀ t, P (EvTimerExit t)) →
  P (EvRunEvaluation Stochastic (params_state ts) (SubKey key 3 1)) →
  (isinstance_RandomAgent E agent = false →
   P (EvRunEvaluation Greedy (params_state ts) (SubKey key 3 2))) →
  (∀ data, P (EvWrite data "eval_stochastic" (i * num_steps_per_epoch))) →
  (isinstance_RandomAgent E agent = false →
   ∀ data, P (EvWrite data "eval_greedy" (i * num_steps_per_epoch))) →
  (∀ data, P (EvWrite data "train" (i * num_steps_per_epoch))) →
  (∀ d, P (EvDevicePut d)) →
  (∀ p a, P (EvRollout p a)) →
  (∀ a d, P (EvRolloutRet a d)) →
  (∀ ts1 d, P (EvGradientStep ts1 d)) →
  (∀ ts1 raw, P (EvGradientStepRet ts1 raw)) →
  Forall P evs.
Proof.
  intros Hep Hsplit Henter Hexit Hstoch Hgreedy Hw1 Hw2 Hw3 Hput Hroll Hret
    Hgrad Hgret.
  assert (∀ r l, epoch_fn_trace E gpu_acting ts r l → Forall P l) as Hfn.
  { destruct 1;
      repeat match goal with d : option Device |- _ => destruct d end;
      simpl; unfold rollout_call, gradient_call; repeat constructor; eauto. }
  assert (∀ ok l,
    eval_trace eval_timer Stochastic (params_state ts) (SubKey key 3 1)
      "eval_stochastic" (i * num_steps_per_epoch) ok l → Forall P l) as Hev1
    by (destruct 1; repeat constructor; eauto).
  assert (∀ ok l,
    greedy_trace E agent eval_timer (params_state ts) (SubKey key 3 2)
      (i * num_steps_per_epoch) ok l → Forall P l) as Hev2.
  { unfold greedy_trace. intros ok l.
    destruct (isinstance_RandomAgent E agent); [by intros [_ ->]|].
    destruct 1; repeat constructor; eauto. }
  assert (∀ r l,
    train_trace E gpu_acting train_timer ts (i * num_steps_per_epoch) r l →
    Forall P l) as Htr.
  { destruct 1; repeat first [apply Forall_cons; split | apply Forall_app; split];
      eauto. }
  destruct Hep; repeat first [apply Forall_cons; split | apply Forall_app; split];
    eauto.
Qed.

Lemma epoch_trace_in_epoch i key ts r evs :
  epoch_trace E gpu_acting agent eval_timer train_timer num_steps_per_epoch
    i key ts r evs →
  Forall (λ e, in_epoch e = true) evs.
Proof. intros H. by apply (epoch_trace_alphabet _ _ _ _ _ _ H). Qed.

(** The epochs read off the trace of the loop are the iterations of the
    loop, in order, each following [epoch_trace] from the key carried into
    it. *)
Lemma for_each_epochs xs : ∀ key ts w j i evs,
  epochs_of (events (for_each xs
     (epoch E gpu_acting logger agent stochastic_eval greedy_eval
            eval_timer train_timer num_steps_per_epoch) (key, ts) w)) !! j
    = Some (i, evs) →
  xs !! j = Some i ∧
  ∃ ts' r,
    epoch_trace E gpu_acting agent eval_timer train_timer num_steps_per_epoch
      i (Nat.iter j (λ k, SubKey k 3 0) key) ts' r evs.
Proof.
  induction xs as [|i0 xs IH]; intros key ts w j i evs; [done|].
  rewrite for_each_cons.
  pose proof (epoch_run E gpu_acting logger agent stochastic_eval greedy_eval
                eval_timer train_timer num_steps_per_epoch i0 key ts w) as Hrun.
  pose proof (epoch_trace_in_epoch _ _ _ _ _ Hrun) as Hin.
  destruct (epoch E gpu_acting logger agent stochastic_eval greedy_eval
              eval_timer train_timer num_steps_per_epoch i0 (key, ts) w)
    as [[[key' ts']|e] w' evs0]; simpl in *.
  - pose proof (for_each_starts
                  (epoch E gpu_acting logger agent stochastic_eval greedy_eval
                         eval_timer train_timer num_steps_per_epoch)
                  xs (key', ts') w') as Hstart.
    rewrite (take_while_app_stop _ _ _ Hin Hstart), epochs_of_app_inside by done.
    destruct j as [|j]; simpl.
    + intros [= <- <-]. eauto.
    + intros Hj. inversion Hrun as [| |e1 e2 e3 [ts1|] ? ? ? Heq]; simplify_eq/=.
      apply IH in Hj as [? (ts2 & r & Hj)].
      rewrite <- (Nat.iter_succ_r j (λ k, SubKey k 3 0) key) in Hj. eauto.
  - rewrite <- (app_nil_r evs0) at 1 2.
    rewrite take_while_app_stop, epochs_of_app_inside by eauto.
    destruct j as [|j]; simpl; [|done].
    intros [= <- <-]. eauto.
Qed.

End Loop.

Lemma train_run cfg log_compiles gpu_acting w :
  train_shape E cfg gpu_acting (train E cfg log_compiles gpu_acting w).
Proof.
  unfold train, with_, split, unpack2. simpl.
  unfold mbind, mret, M_bind, M_ret, bind, ret, finally, call, emit, raise,
    of_result.
  simpl.
  destruct (setup_logger E cfg w) as [[logger|e] w1]; simpl;
    [|by apply TS_not_entered].
  destruct (setup_env E cfg w1) as [[env|e] w2]; simpl;
    [|by apply TS_not_entered].
  destruct (_setup_actor_critic_neworks E cfg env w2) as [[nets|e] w3]; simpl;
    [|by apply TS_not_entered].
  destruct (optax_adam E _ w3) as [[opt|e] w4]; simpl;
    [|by apply TS_not_entered].
  destruct (A2CAgent E env _ _ nets opt _ gpu_acting w4) as [[agent|e] w5]
    eqn:Hagent; simpl; [|by apply TS_not_entered].
  assert (agent_built E cfg gpu_acting agent) as Hbuilt
    by (by exists env, nets, opt, w4, w5).
  destruct (setup_evaluators E cfg agent w5) as [[evaluators|e] w6]; simpl;
    [|by apply TS_not_entered].
  destruct (setup_training_state E env agent _ w6) as [[ts|e] w7]; simpl;
    [|by apply TS_not_entered].
  destruct (log_compiles_enter E log_compiles w7) as [[[]|e] w8]; simpl;
    [|by apply TS_not_entered].
  destruct (logger_enter E logger w8) as [[[]|e] w9]; simpl.
  - fold (epoch_loop E cfg gpu_acting logger agent evaluators ts).
    destruct (epoch_loop E cfg gpu_acting logger agent evaluators ts w9)
      as [[st|e] w10 evs] eqn:Hloop; simpl.
    + destruct (logger_exit E logger None w10) as [[[]|e] w11]; simpl;
        destruct (log_compiles_exit E log_compiles _ w11) as [[[]|e'] w12];
        simpl;
        apply (TS_entered E _ _ _ logger agent evaluators ts w9);
        rewrite ?Hloop; simpl; by rewrite ?app_nil_r.
    + destruct (logger_exit E logger (Some e) w10) as [[[]|e1] w11]; simpl;
        destruct (log_compiles_exit E log_compiles _ w11) as [[[]|e'] w12];
        simpl;
        apply (TS_entered E _ _ _ logger agent evaluators ts w9);
        rewrite ?Hloop; simpl; by rewrite ?app_nil_r.
  - destruct (log_compiles_exit E log_compiles _ w9) as [[[]|e'] w10];
      simpl; by apply TS_not_entered.
Qed.

Lemma take_while_app_boundary {A} (p : A → bool) l x :
  p x = false → take_while p (l ++ [x]) = take_while p l.
Proof.
  intros Hx. induction l as [|y l IH]; simpl; [by rewrite Hx|].
  by rewrite IH.
Qed.

Lemma epochs_of_app_exit l exc :
  epochs_of (l ++ [EvLoggerExit exc]) = epochs_of l.
Proof.
  induction l as [|e l IH]; simpl; [done|].
  destruct e; try done.
  by rewrite IH, take_while_app_boundary.
Qed.

Lemma lookup_trange n (j : nat) i : trange n !! j = Some i → i = Z.of_nat j.
Proof. unfold trange. intros H%lookup_seqZ. lia. Qed.

(** The epochs of a run: epoch [j] has index [j], starts from the key
    [epoch_key seed j], and follows [epoch_trace] for the agent the run
    built. *)
Lemma train_epochs cfg log_compiles gpu_acting w (j : nat) i evs :
  epochs_of (events (train E cfg log_compiles gpu_acting w)) !! j
    = Some (i, evs) →
  i = Z.of_nat j ∧ (i < num_epochs cfg)%Z ∧
  ∃ agent ts r,
    agent_built E cfg gpu_acting agent ∧
    epoch_trace E gpu_acting agent (mkTimer "metrics" None)
      (mkTimer "metrics" (Some (steps_per_epoch cfg))) (steps_per_epoch cfg)
      i (epoch_key (seed cfg) j) ts r evs.
Proof.
  destruct (train_run cfg log_compiles gpu_acting w)
    as [_ Hev|logger agent evaluators ts w' l Hbuilt _ Hev]; rewrite Hev; simpl;
    [done|].
  rewrite epochs_of_app_exit. subst l. unfold epoch_loop.
  intros Hj. apply for_each_epochs in Hj as (Hi & ts' & r & Hj).
  pose proof (lookup_trange _ _ _ Hi) as ->.
  apply lookup_seqZ in Hi. repeat split; [lia|]. by exists agent, ts', r.
Qed.

End Runs.

(** ** Properties of the driver *)

Section Claims.
Context `{O : Objects} (E : Externals).


Lemma ts_leaves_tree_map f ts : ts_leaves (tree_map f ts) = f <$> ts_leaves ts.
Proof. unfold ts_leaves, tree_map. simpl. by rewrite !fmap_app. Qed.

Lemma tree_map_opt_leaves f ts ts0 :
  tree_map_opt f ts = Some ts0 →
  Forall2 (λ x y, f x = Some y) (ts_leaves ts) (ts_leaves ts0).
Proof.
  unfold tree_map_opt, ts_leaves. intros H. simplify_option_eq.
  repeat apply Forall2_app; by apply mapM_Some.
Qed.

Lemma on_device_put d l : on_device d (put_on d <$> l).
Proof. unfold on_device. by apply Forall_fmap, Forall_true. Qed.

Lemma epoch_fn_returns gpu_acting agent ts w ts' m :
  outcome (epoch_fn E gpu_acting agent ts w) = Ok (ts', m) →
  ∃ ts0 ts1 raw cpu dev acting data,
    tree_map_opt index0 ts = Some ts0 ∧
    ts' = tree_map add_axis ts1 ∧ m = jnp_mean E <$> raw ∧
    events (epoch_fn E gpu_acting agent ts w) =
      puts cpu ++ [rollout_call ts0 cpu; EvRolloutRet acting data]
      ++ puts dev ++ [gradient_call ts0 dev acting data; EvGradientStepRet ts1 raw].
Proof.
  intros Hout. pose proof (epoch_fn_run E gpu_acting agent ts w) as Hrun.
  rewrite Hout in Hrun. simpl in Hrun.
  inversion Hrun; subst. by eexists _, _, _, _, _, _, _.
Qed.

(** C2, as the code has it: whatever the length of the replica axis of
    the state passed to [epoch_fn] (of which only index 0 is read, so it is
    at least 1), every leaf of the returned state has a leading axis of
    length exactly 1. *)
Theorem returned_replica_axis gpu_acting agent ts w ts' m :
  outcome (epoch_fn E gpu_acting agent ts w) = Ok (ts', m) →
  Forall (λ a, a = Some 1%nat) (leading_axes ts') ∧
  Forall (λ a, ∃ n, a = Some (S n)) (leading_axes ts).
Proof.
  intros (ts0 & ts1 & raw & cpu & dev & a & d & Hts & -> & _)%epoch_fn_returns.
  unfold leading_axes. split.
  - rewrite ts_leaves_tree_map, <- list_fmap_compose.
    by apply Forall_fmap, Forall_true.
  - apply Forall_fmap.
    apply tree_map_opt_leaves in Hts.
    induction Hts as [|x y l k Hxy _ IH]; constructor; [|done].
    unfold index0 in Hxy. simpl.
    destruct (arr_val x) as [|[|z zs]]; simplify_eq/=. eauto.
Qed.


Lemma preceded_sound P Q l q e :
  preceded P Q l = true → l !! q = Some e → Q e = true →
  ∃ p e', (p < q)%nat ∧ l !! p = Some e' ∧ P e' = true.
Proof.
  revert q. induction l as [|a l IH]; intros q Hc Hq HQ; [done|].
  simpl in Hc. destruct q as [|q]; simplify_eq/=; [by rewrite HQ in Hc|].
  destruct (Q a); [done|]. destruct (P a) eqn:HP.
  - exists 0%nat, a. split_and!; [lia|done..].
  - destruct (IH q Hc Hq HQ) as (p & e' & ? & ? & ?).
    exists (S p), e'. split_and!; [lia|done..].
Qed.

Lemma none_after_sound P Q l p q e e' :
  none_after P Q l = true →
  l !! p = Some e → P e = true → l !! q = Some e' → Q e' = true → (p < q)%nat.
Proof.
  revert p q. induction l as [|a l IH]; intros p q Hc Hp HP Hq HQ; [done|].
  simpl in Hc. destruct (Q a) eqn:HQa.
  - exfalso. change (forallb (λ x, negb (P x)) (a :: l) = true) in Hc.
    rewrite forallb_forall in Hc.
    apply list_elem_of_lookup_2, list_elem_of_In, Hc in Hp.
    by rewrite HP in Hp.
  - destruct q as [|q]; simplify_eq/=; try congruence.
    destruct p as [|p]; simplify_eq/=; [lia|].
    pose proof (IH p q Hc Hp HP Hq HQ). lia.
Qed.

Lemma strictly_before_check P Q l :
  preceded P Q l = true → none_after P Q l = true → strictly_before P Q l.
Proof.
  split; eauto using preceded_sound, none_after_sound.
Qed.

Lemma split_here {A} (x : A) l : x :: l = [] ++ x :: l.
Proof. done. Qed.

Lemma split_later {A} (x : A) l l1 r : l = l1 ++ r → x :: l = (x :: l1) ++ r.
Proof. by intros ->. Qed.

(** Cut a list that is written out at the place the goal asks for. *)
Ltac find_split :=
  simpl; repeat first [apply split_here | apply split_later].

(** C7, as the code has it: what [epoch_fn] returns is the mapping of the
    [jnp.mean]s of the metrics the gradient step of that epoch returned,
    each a 0-d array holding the average of the elements of the raw
    metric; what is logged under ["train"] is that mapping as the train
    timer hands it back: the mean for every name the timer leaves alone,
    and what the timer wrote for a name it writes to. *)
Theorem train_metrics_are_means cfg log_compiles gpu_acting w (j : nat) i evs
    data s :
  epochs_of (events (train E cfg log_compiles gpu_acting w)) !! j
    = Some (i, evs) →
  EvWrite data "train" s ∈ evs →
  ∃ ts1 raw,
    EvGradientStepRet ts1 raw ∈ evs ∧
    (∀ ts2 raw2, EvGradientStepRet ts2 raw2 ∈ evs → raw2 = raw) ∧
    timer_reports E (mkTimer "metrics" (Some (steps_per_epoch cfg)))
                  (jnp_mean E <$> raw) data ∧
    ∀ k a, raw !! k = Some a →
      (jnp_mean E <$> raw) !! k
        = Some (mkArray (Scalar (mean_of E (elements (arr_val a)))) (arr_dev a)) ∧
      (timer_keeps E (mkTimer "metrics" (Some (steps_per_epoch cfg))) k →
       data !! k
        = Some (mkArray (Scalar (mean_of E (elements (arr_val a)))) (arr_dev a))).
Proof.
  intros (-> & _ & agent & ts & r & _ & Hep)%train_epochs Hin.
  assert (∀ raw data k a,
    timer_reports E (mkTimer "metrics" (Some (steps_per_epoch cfg)))
                  (jnp_mean E <$> raw) data →
    raw !! k = Some a →
    (jnp_mean E <$> raw) !! k
      = Some (mkArray (Scalar (mean_of E (elements (arr_val a)))) (arr_dev a)) ∧
    (timer_keeps E (mkTimer "metrics" (Some (steps_per_epoch cfg))) k →
     data !! k
      = Some (mkArray (Scalar (mean_of E (elements (arr_val a)))) (arr_dev a))))
    as Hmean.
  { intros raw d k a (w1 & w2 & Hrep) Hk.
    assert ((jnp_mean E <$> raw) !! k = Some (jnp_mean E a)) as Hm
      by (by rewrite lookup_fmap, Hk).
    split; [done|]. intros Hkeep. by rewrite (Hkeep _ _ _ _ Hrep). }
  epoch_cases Hep; set_unfold in Hin; destruct_or?; simplify_eq.
  all: eexists _, _; split_and!; [find_elem| |done|by eauto].
  all: intros ts2 raw2 Hin2; set_unfold in Hin2; destruct_or?; by simplify_eq.
Qed.

Lemma derived_keys_app l1 l2 :
  derived_keys (l1 ++ l2) = derived_keys l1 ++ derived_keys l2.
Proof. apply flat_map_app. Qed.

Lemma derived_keys_epoch i key ks rest more :
  derived_keys rest = [] →
  derived_keys (EvIter i :: (EvSplit key ks :: rest) ++ more)
  = ks ++ derived_keys more.
Proof.
  intros Hrest. change (derived_keys (EvIter i :: (EvSplit key ks :: rest) ++ more))
    with (ks ++ derived_keys (rest ++ more)).
  by rewrite derived_keys_app, Hrest.
Qed.

Lemma derived_keys_run cfg l exc :
  derived_keys (seed_split cfg :: EvLoggerEnter :: l ++ [EvLoggerExit exc])
  = random_split (PRNGKey (seed cfg)) 2 ++ derived_keys l.
Proof.
  change (derived_keys (seed_split cfg :: EvLoggerEnter :: l ++ [EvLoggerExit exc]))
    with (random_split (PRNGKey (seed cfg)) 2
          ++ derived_keys (l ++ [EvLoggerExit exc])).
  rewrite derived_keys_app. simpl. by rewrite app_nil_r.
Qed.

Lemma epoch_trace_split g agent et tt N i key ts r evs :
  epoch_trace E g agent et tt N i key ts r evs →
  ∃ rest,
    evs = EvSplit key [SubKey key 3 0; SubKey key 3 1; SubKey key 3 2] :: rest ∧
    derived_keys rest = [].
Proof. intros Hep. epoch_cases Hep; by eexists. Qed.

Lemma epoch_trace_eval_keys g agent et tt N i key ts r evs which ps k :
  epoch_trace E g agent et tt N i key ts r evs →
  EvRunEvaluation which ps k ∈ evs →
  k = SubKey key 3 (match which with Stochastic => 1 | Greedy => 2 end).
Proof.
  intros Hep Hin.
  apply (epoch_trace_alphabet E _ _ _ _ _
           (λ e, ∀ which ps k, e = EvRunEvaluation which ps k →
              k = SubKey key 3 (match which with Stochastic => 1 | Greedy => 2 end)))
    in Hep; try (intros; simplify_eq; done).
  rewrite Forall_forall in Hep. by eapply Hep.
Qed.

Lemma split3_fresh key :
  NoDup [SubKey key 3 0; SubKey key 3 1; SubKey key 3 2].
Proof. nodup_keys. Qed.

(** The sub-keys derived in the loop are pairwise different and lie
    deeper than the key the loop starts from. *)
Lemma for_each_derived g logger agent se ge et tt N xs : ∀ key ts w k,
  let ks := derived_keys (events (for_each xs
              (epoch E g logger agent se ge et tt N) (key, ts) w)) in
  NoDup ks ∧ (k ∈ ks → (depth key < depth k)%nat).
Proof.
  induction xs as [|i0 xs IH]; intros key ts w k; simpl.
  { split; [constructor|set_solver]. }
  pose proof (for_each_cons (epoch E g logger agent se ge et tt N)
                i0 xs (key, ts) w) as Hc.
  simpl in Hc. rewrite Hc. clear Hc.
  pose proof (epoch_run E g logger agent se ge et tt N i0 key ts w) as Hrun.
  destruct (epoch_trace_split _ _ _ _ _ _ _ _ _ _ Hrun) as (rest & Hev & Hrest).
  destruct (epoch E g logger agent se ge et tt N i0 (key, ts) w)
    as [[[key' ts']|e] w' evs0]; cbn [outcome events world value] in *;
    subst evs0.
  - assert (key' = SubKey key 3 0) as ->
      by (inversion Hrun as [| |e1 e2 e3 [ts1|] ? ? ? Heq]; by simplify_eq/=).
    rewrite derived_keys_epoch by done.
    specialize (IH (SubKey key 3 0) ts' w'). cbn zeta in IH.
    split.
    + apply NoDup_app. split_and!.
      * apply split3_fresh.
      * intros k' Hk' Hin. apply IH in Hin.
        set_unfold in Hk'. destruct_or?; subst; simpl in *; lia.
      * apply (IH k).
    + intros [Hin|Hin]%elem_of_app.
      * set_unfold in Hin. destruct_or?; subst; simpl; lia.
      * apply IH in Hin. simpl in Hin. lia.
  - match goal with
    | |- context [derived_keys (EvIter _ :: EvSplit _ ?ks :: rest)] =>
        change (derived_keys (EvIter i0 :: EvSplit key ks :: rest))
          with (ks ++ derived_keys rest)
    end.
    rewrite Hrest, app_nil_r.
    split; [apply split3_fresh|].
    intros Hin. set_unfold in Hin. destruct_or?; subst; simpl; lia.
Qed.

(** C4: every epoch splits the key carried into it into exactly three
    sub-keys, once; the first is the key carried into the next epoch, the
    second is the key of the stochastic evaluation and the third the key of
    the greedy evaluation; and no two of the sub-keys derived in a run, in
    the same epoch or in different ones, are the same key. *)
Theorem fresh_keys cfg log_compiles gpu_acting w :
  NoDup (derived_keys (events (train E cfg log_compiles gpu_acting w))) ∧
  ∀ (j : nat) i evs,
    epochs_of (events (train E cfg log_compiles gpu_acting w)) !! j
      = Some (i, evs) →
    (∃ rest,
       evs = EvSplit (epoch_key (seed cfg) j)
               [SubKey (epoch_key (seed cfg) j) 3 0;
                SubKey (epoch_key (seed cfg) j) 3 1;
                SubKey (epoch_key (seed cfg) j) 3 2] :: rest ∧
       derived_keys rest = []) ∧
    (∀ ps k, EvRunEvaluation Stochastic ps k ∈ evs →
       k = SubKey (epoch_key (seed cfg) j) 3 1) ∧
    (∀ ps k, EvRunEvaluation Greedy ps k ∈ evs →
       k = SubKey (epoch_key (seed cfg) j) 3 2) ∧
    epoch_key (seed cfg) (S j) = SubKey (epoch_key (seed cfg) j) 3 0.
Proof.
  split.
  - destruct (train_run E cfg log_compiles gpu_acting w)
      as [_ Hev|logger agent evaluators ts w' l _ _ Hev]; rewrite Hev.
    + simpl. nodup_keys.
    + rewrite derived_keys_run. subst l. unfold epoch_loop.
      apply NoDup_app. split_and!.
      * cbn. nodup_keys.
      * intros k Hk Hin.
        eapply for_each_derived in Hin.
        cbn in Hk. set_unfold in Hk. destruct_or?; subst; simpl in *; lia.
      * eapply (for_each_derived _ _ _ _ _ _ _ _ _ _ _ _ (PRNGKey 0)).
  - intros j i evs (-> & _ & agent & ts & r & _ & Hep)%train_epochs.
    split_and!; [by eapply epoch_trace_split| | |done].
    + intros ps k Hin. by apply (epoch_trace_eval_keys _ _ _ _ _ _ _ _ _ _ _ _ _ Hep Hin).
    + intros ps k Hin. by apply (epoch_trace_eval_keys _ _ _ _ _ _ _ _ _ _ _ _ _ Hep Hin).
Qed.

Lemma for_each_events g logger agent se ge et tt N xs : ∀ st w,
  Forall (λ e, e ≠ EvLoggerEnter ∧ ∀ exc, e ≠ EvLoggerExit exc)
    (events (for_each xs (epoch E g logger agent se ge et tt N) st w)).
Proof.
  induction xs as [|i0 xs IH]; intros [key ts] w; [constructor|].
  rewrite for_each_cons.
  pose proof (epoch_run E g logger agent se ge et tt N i0 key ts w) as Hrun.
  apply epoch_trace_in_epoch in Hrun.
  assert (Forall (λ e, e ≠ EvLoggerEnter ∧ ∀ exc, e ≠ EvLoggerExit exc)
            (events (epoch E g logger agent se ge et tt N i0 (key, ts) w)))
    as Hbody.
  { eapply Forall_impl; [exact Hrun|]. intros e He. by destruct e. }
  destruct (outcome (epoch E g logger agent se ge et tt N i0 (key, ts) w));
    simpl; constructor; try done.
  apply Forall_app. split; [done|apply IH].
Qed.

(** C8, as the code has it: a run that enters the logger scope acquires
    the logger once, before the first iteration, and releases it exactly
    once, after the last event of the loop, however the loop ended; a run
    that stops before the scope is entered (a setup call or an enter call
    raised) never acquires or releases the logger and never starts the
    loop. *)
Theorem logger_released_once cfg log_compiles gpu_acting w :
  ((EvLoggerEnter ∉ events (train E cfg log_compiles gpu_acting w)) ∧
   (∀ exc, EvLoggerExit exc ∉ events (train E cfg log_compiles gpu_acting w)) ∧
   (∀ i, EvIter i ∉ events (train E cfg log_compiles gpu_acting w)) ∧
   is_ok (outcome (train E cfg log_compiles gpu_acting w)) = false) ∨
  (∃ mid exc,
     events (train E cfg log_compiles gpu_acting w)
       = seed_split cfg :: EvLoggerEnter :: mid ++ [EvLoggerExit exc] ∧
     (EvLoggerEnter ∉ mid) ∧ (∀ exc', EvLoggerExit exc' ∉ mid) ∧
     (exc = None ∨ is_ok (outcome (train E cfg log_compiles gpu_acting w)) = false)).
Proof.
  destruct (train_run E cfg log_compiles gpu_acting w)
    as [Hfail Hev|logger agent evaluators ts w' l _ Hok Hev]; rewrite Hev.
  - left. unfold seed_split. split_and!; try done;
      intros; set_unfold; intros ?; destruct_or?; simplify_eq.
  - right. exists (events l), (exc_of (outcome l)).
    pose proof (for_each_events gpu_acting logger agent evaluators.1
                  evaluators.2 (mkTimer "metrics" None)
                  (mkTimer "metrics" (Some (steps_per_epoch cfg)))
                  (steps_per_epoch cfg) (trange (num_epochs cfg))
                  (SubKey (PRNGKey (seed cfg)) 2 0, ts) w') as Hloop.
    fold (epoch_loop E cfg gpu_acting logger agent evaluators ts) in Hloop.
    fold l in Hloop. rewrite Forall_forall in Hloop.
    split_and!; [done|..].
    + intros Hin. by destruct (Hloop _ Hin).
    + intros exc' Hin. destruct (Hloop _ Hin) as [_ Hne]. by destruct (Hne exc').
    + destruct (outcome l) eqn:Hl; simpl; [by left|right].
      destruct (is_ok (outcome (train E cfg log_compiles gpu_acting w)));
        [|done]. by specialize (Hok eq_refl).
Qed.

Lemma returns_ret {A} (a : A) (Q : A → Prop) : Q a → returns (mret a) Q.
Proof. intros HQ w. by exists a. Qed.

Lemma returns_emit e (Q : unit → Prop) : Q tt → returns (emit e) Q.
Proof. intros HQ w. by exists tt. Qed.

Lemma returns_call {A} (op : ext A) :
  ext_returns A op → returns (call op) (λ a, ∃ w w', op w = (Ok a, w')).
Proof.
  intros Hop w. specialize (Hop w). unfold call.
  destruct (op w) as [[a|e] w'] eqn:Hw; simplify_eq/=. eauto.
Qed.

Lemma returns_bind {A B} (m : M A) (f : A → M B) P Q :
  returns m P → (∀ a, P a → returns (f a) Q) → returns (m ≫= f) Q.
Proof.
  intros Hm Hf w. rewrite bind_run.
  destruct (Hm w) as (a & -> & Ha). simpl. apply (Hf a Ha).
Qed.

Lemma returns_weaken {A} (m : M A) (P Q : A → Prop) :
  returns m P → (∀ a, P a → Q a) → returns m Q.
Proof. intros Hm HPQ w. destruct (Hm w) as (a & ? & ?). eauto. Qed.

Lemma returns_finally {A} (body : M A) leave P Q :
  returns body P → (∀ a, P a → returns (leave (Ok a)) Q) →
  returns (finally body leave) Q.
Proof.
  intros Hb Hl w. unfold finally.
  destruct (Hb w) as (a & Hout & Ha).
  destruct (body w) as [r w' evs]; simpl in *; subst r.
  destruct (Hl a Ha w') as (b & Hout' & Hb').
  destruct (leave (Ok a) w') as [r' w'' evs']; simpl in *. eauto.
Qed.

Lemma returns_for_each {S} (f : Z → S → M S) (I : S → Prop) xs : ∀ s,
  I s → (∀ i s, I s → returns (f i s) I) → returns (for_each xs f s) I.
Proof.
  induction xs as [|i xs IH]; intros s Hs Hf; simpl.
  - by apply returns_ret.
  - eapply returns_bind; [by apply (returns_emit _ (λ _, True))|].
    intros _ _. eapply returns_bind; [by apply Hf|]. eauto.
Qed.

Lemma replicated_add_axis ts : replicated (tree_map add_axis ts).
Proof.
  exists ts. unfold tree_map_opt, tree_map. simpl.
  assert (∀ l : Leaves, mapM index0 (add_axis <$> l) = Some l) as Hl.
  { intros l. apply mapM_fmap_Some. by intros []. }
  rewrite !Hl. simpl. by destruct ts as [[[] ?] ?].
Qed.

Section Returning.
Hypothesis Hc : components_satisfy E ext_returns.
Hypothesis Ht : timers_satisfy E ext_returns.
Hypothesis Hs : well_set_up E.
Variable gpu_acting : bool.

(** A block made of events and delegated calls returns. *)
Ltac returns_block :=
  lazymatch goal with
  | |- returns (_ ≫= _) _ =>
      eapply (returns_bind _ _ (λ _, True));
      [returns_block|intros ? _; returns_block]
  | |- returns (emit _) _ => by apply returns_emit
  | |- returns (call _) _ =>
      eapply returns_weaken;
      [apply returns_call; first [apply Hc|apply Ht]|done]
  | |- returns (mret _) _ => by apply returns_ret
  | |- returns (ret _) _ => by apply returns_ret
  end.

Ltac returns_next :=
  eapply returns_bind;
  [ first [ by apply (returns_emit _ (λ _, True))
          | apply returns_call; first [ apply Hc | apply Ht ] ]
  | cbv beta ].

Lemma split_returns key num :
  returns (split key num) (λ ks, ks = random_split key num).
Proof. intros w. by eexists. Qed.

Lemma first_device_returns backend :
  returns (first_device E backend) (λ _, True).
Proof.
  intros w. unfold first_device.
  destruct Hs as [_ Hd]. destruct (Hd backend) as [d ->]. by exists d.
Qed.

Lemma epoch_fn_returns_replicated agent ts :
  replicated ts →
  returns (epoch_fn E gpu_acting agent ts) (λ r, replicated r.1).
Proof.
  intros [ts0 Hts0]. unfold epoch_fn. rewrite Hts0. simpl.
  eapply returns_bind; [by apply (returns_ret _ (λ _, True))|intros ? _].
  eapply (returns_bind _ _ (λ _, True)).
  { destruct gpu_acting; simpl; [by apply returns_ret|].
    eapply returns_bind; [apply first_device_returns|intros ? _].
    unfold device_put. returns_block. }
  intros [pp ac] _. returns_next; intros _ _.
  returns_next; intros [a' d] _. returns_next; intros _ _.
  eapply (returns_bind _ _ (λ _, True)).
  { destruct gpu_acting; simpl; [by apply returns_ret|].
    eapply returns_bind; [apply first_device_returns|intros ? _].
    unfold device_put. returns_block. }
  intros [a'' d''] _. returns_next; intros _ _.
  returns_next; intros [ts1 raw] _. returns_next; intros _ _.
  apply returns_ret. apply replicated_add_axis.
Qed.

Lemma timed_returns {A} t (body : M (A * Metrics)) (P : A → Prop) :
  returns body (λ am, P am.1) →
  returns (timed E t body) (λ am, P am.1).
Proof.
  intros Hb. unfold timed.
  returns_next; intros _ _. returns_next; intros _ _.
  eapply returns_finally; [exact Hb|].
  intros am Ham. simpl. returns_next; intros _ _.
  returns_next; intros m _. by apply returns_ret.
Qed.

Lemma evaluate_returns logger et which ev label ps k s :
  returns (evaluate E logger et which ev label ps k s) (λ _, True).
Proof.
  unfold evaluate, write.
  eapply returns_bind.
  { apply (timed_returns _ _ (λ _, True)). returns_block. }
  intros ? _. returns_block.
Qed.

Lemma train_step_returns logger agent tt ts s :
  replicated ts →
  returns (train_step E gpu_acting logger agent tt ts s) replicated.
Proof.
  intros Hts. unfold train_step, write.
  eapply returns_bind.
  { apply (timed_returns _ _ replicated).
    eapply returns_bind; [by apply epoch_fn_returns_replicated|].
    intros r Hr. returns_block. }
  intros tm Htm. simpl in Htm. returns_block.
Qed.

Lemma epoch_returns logger agent se ge et tt N i st :
  replicated st.2 →
  returns (epoch E gpu_acting logger agent se ge et tt N i st)
          (λ st', replicated st'.2).
Proof.
  intros Hst. unfold epoch.
  eapply returns_bind; [apply split_returns|intros ks ->]. simpl.
  eapply (returns_bind _ _ (λ _, True)); [returns_block|intros ? _].
  eapply returns_bind; [apply evaluate_returns|intros ? _].
  eapply (returns_bind _ _ (λ _, True)).
  { destruct (isinstance_RandomAgent E agent); simpl;
      [by apply returns_ret|apply evaluate_returns]. }
  intros ? _.
  eapply returns_bind; [by apply train_step_returns|].
  intros ts' Hts'. by apply returns_ret.
Qed.

Lemma train_returns cfg log_compiles :
  returns (train E cfg log_compiles gpu_acting) (λ _, True).
Proof.
  unfold train, with_.
  eapply returns_bind; [apply split_returns|intros ks ->]. simpl.
  eapply (returns_bind _ _ (λ _, True)); [returns_block|intros ? _].
  returns_next; intros logger _. returns_next; intros env _.
  returns_next; intros nets _. returns_next; intros opt _.
  returns_next; intros agent _. returns_next; intros [se ge] _.
  eapply returns_bind; [apply returns_call, Hc|].
  intros ts (w & w' & Hts). apply Hs in Hts.
  eapply (returns_bind _ _ (λ _, True)); [returns_block|intros ? _].
  eapply (returns_finally _ _ (λ _, True)).
  { eapply (returns_bind _ _ (λ _, True)); [returns_block|intros ? _].
    eapply (returns_finally _ _ (λ _, True)).
    - eapply returns_bind; [|intros ? _; by apply (returns_ret _ (λ _, True))].
      apply (returns_for_each _ (λ st, replicated st.2)); [done|].
      intros i st Hst. by apply epoch_returns.
    - intros [] _. unfold exc_of, of_result. returns_block. }
  intros [] _. unfold exc_of, of_result. returns_block.
Qed.
End Returning.

Lemma for_each_all_epochs g logger agent se ge et tt N xs : ∀ st w,
  is_ok (outcome (for_each xs (epoch E g logger agent se ge et tt N) st w)) = true →
  (epochs_of (events (for_each xs (epoch E g logger agent se ge et tt N) st w))).*1
  = xs.
Proof.
  induction xs as [|i0 xs IH]; intros [key ts] w; [done|].
  rewrite for_each_cons.
  pose proof (epoch_run E g logger agent se ge et tt N i0 key ts w) as Hrun.
  apply epoch_trace_in_epoch in Hrun.
  destruct (epoch E g logger agent se ge et tt N i0 (key, ts) w)
    as [[st'|e] w' evs0]; simpl in *; [|done].
  intros Hok. rewrite epochs_of_app_inside by done.
  f_equal. by apply IH.
Qed.

Lemma train_all_epochs cfg log_compiles gpu_acting w :
  is_ok (outcome (train E cfg log_compiles gpu_acting w)) = true →
  (epochs_of (events (train E cfg log_compiles gpu_acting w))).*1
  = trange (num_epochs cfg).
Proof.
  destruct (train_run E cfg log_compiles gpu_acting w)
    as [Hfail Hev|logger agent evaluators ts w' l _ Hok Hev]; rewrite Hev;
    [congruence|].
  intros Hr. simpl. rewrite epochs_of_app_exit.
  apply for_each_all_epochs, Hok, Hr.
Qed.

(** *** Two runs side by side *)

Section Determinism.
Variable R : World → World → Prop.

Lemma det_ret {A} (a : A) : det R (mret a).
Proof. by intros w1 w2 HR. Qed.

Lemma det_raise {A} e : det R (raise (A:=A) e).
Proof. by intros w1 w2 HR. Qed.

Lemma det_emit e : det R (emit e).
Proof. by intros w1 w2 HR. Qed.

Lemma det_call {A} (op : ext A) : ext_det R A op → det R (call op).
Proof.
  intros Hop w1 w2 HR. destruct (Hop w1 w2 HR) as [Hr Hw]. unfold call.
  destruct (op w1), (op w2); simpl in *. by subst.
Qed.

Lemma det_bind {A B} (m : M A) (f : A → M B) :
  det R m → (∀ a, det R (f a)) → det R (m ≫= f).
Proof.
  intros Hm Hf w1 w2 HR. rewrite !bind_run.
  destruct (Hm w1 w2 HR) as (Ho & He & Hw). rewrite <- Ho, <- He.
  destruct (outcome (m w1)) as [a|e]; simpl; [|done].
  destruct (Hf a _ _ Hw) as (Ho' & He' & Hw'). by rewrite Ho', He'.
Qed.

Lemma det_finally {A} (body : M A) leave :
  det R body → (∀ r, det R (leave r)) → det R (finally body leave).
Proof.
  intros Hb Hl w1 w2 HR. unfold finally.
  destruct (Hb w1 w2 HR) as (Ho & He & Hw).
  destruct (body w1) as [r1 v1 e1], (body w2) as [r2 v2 e2]; simpl in *.
  subst r2 e2.
  destruct (Hl r1 v1 v2 Hw) as (Ho' & He' & Hw').
  destruct (leave r1 v1), (leave r1 v2); simpl in *. by subst.
Qed.

Lemma det_for_each {S} (f : Z → S → M S) xs : ∀ s,
  (∀ i s, det R (f i s)) → det R (for_each xs f s).
Proof.
  induction xs as [|i xs IH]; intros s Hf; simpl; [apply det_ret|].
  apply det_bind; [apply det_emit|intros _].
  apply det_bind; [apply Hf|intros s']. by apply IH.
Qed.

Hypothesis Hc : components_satisfy E (ext_det R).
Hypothesis Ht : timers_satisfy E (ext_det R).

(** A block built from events, delegated calls and matches on values
    does not tell related worlds apart. *)
Ltac det_block :=
  lazymatch goal with
  | |- det R (_ ≫= _) => apply det_bind; [det_block|intros ?; det_block]
  | |- det R (emit _) => apply det_emit
  | |- det R (call _) => apply det_call; first [apply Hc|apply Ht]
  | |- det R (mret _) => apply det_ret
  | |- det R (ret _) => apply det_ret
  | |- det R (raise _) => apply det_raise
  | |- det R (finally _ _) => apply det_finally; [det_block|intros ?; det_block]
  | |- det R (of_option ?o _) =>
      destruct o; unfold of_option; cbv beta iota; det_block
  | |- det R (of_result ?r) =>
      destruct r; unfold of_result; cbv beta iota; det_block
  | |- det R (match ?x with _ => _ end) => destruct x; cbv beta iota; det_block
  end.

Lemma epoch_det g logger agent se ge et tt N i st :
  det R (epoch E g logger agent se ge et tt N i st).
Proof.
  unfold epoch, evaluate, train_step, timed, write, epoch_fn, split, unpack3,
    first_device, device_put.
  det_block.
Qed.

Lemma train_det cfg log_compiles gpu_acting :
  det R (train E cfg log_compiles gpu_acting).
Proof.
  unfold train, with_, split, unpack2.
  repeat (apply det_bind; [det_block|intros ?]).
  apply det_finally; [|intros ?; det_block].
  apply det_bind; [det_block|intros ?].
  apply det_finally; [|intros ?; det_block].
  apply det_bind; [|intros ?; apply det_ret].
  apply det_for_each. intros i st. apply epoch_det.
Qed.

(** C9, as the code has it: when the components and the two timers of
    the driver tell no difference between the worlds two runs start in, the
    runs issue the same events, in particular the same
    [(data, label, env_steps)] writes, and end the same way.  The timers
    belong to the premises: what they report into [metrics] is logged. *)
Theorem runs_agree cfg log_compiles gpu_acting w1 w2 :
  R w1 w2 →
  writes (events (train E cfg log_compiles gpu_acting w1))
    = writes (events (train E cfg log_compiles gpu_acting w2)) ∧
  outcome (train E cfg log_compiles gpu_acting w1)
    = outcome (train E cfg log_compiles gpu_acting w2).
Proof.
  intros HR.
  destruct (train_det cfg log_compiles gpu_acting w1 w2 HR) as (Ho & He & _).
  by rewrite He, Ho.
Qed.

End Determinism.

End Claims.

Section TwoRuns.
Context `{O : Objects} (E E' : Externals).

(** C10: the three-way split is the first thing every epoch does, whatever
    the agent is: two runs from the same seed, with any components (one
    whose agent passes the [RandomAgent] check and one whose agent does not,
    say), split the same key into the same sub-keys in epoch [j], the
    greedy key included, and run the stochastic evaluation with the same
    key. *)
Theorem greedy_key_always_drawn cfg cfg' log_compiles
    log_compiles' gpu_acting gpu_acting' w w' (j : nat) i i' evs evs' :
  seed cfg = seed cfg' →
  epochs_of (events (train E cfg log_compiles gpu_acting w)) !! j
    = Some (i, evs) →
  epochs_of (events (train E' cfg' log_compiles' gpu_acting' w')) !! j
    = Some (i', evs') →
  ∃ key rest rest',
    key = epoch_key (seed cfg) j ∧
    evs = EvSplit key [SubKey key 3 0; SubKey key 3 1; SubKey key 3 2] :: rest ∧
    evs' = EvSplit key [SubKey key 3 0; SubKey key 3 1; SubKey key 3 2] :: rest' ∧
    derived_keys rest = [] ∧ derived_keys rest' = [] ∧
    (∀ ps k, EvRunEvaluation Stochastic ps k ∈ evs → k = SubKey key 3 1) ∧
    (∀ ps k, EvRunEvaluation Stochastic ps k ∈ evs' → k = SubKey key 3 1).
Proof.
  intros Hseed (-> & _ & agent & ts & r & _ & Hep)%train_epochs
    (-> & _ & agent' & ts' & r' & _ & Hep')%train_epochs.
  rewrite <- Hseed in Hep'.
  destruct (epoch_trace_split _ _ _ _ _ _ _ _ _ _ _ Hep) as (rest & -> & Hrest).
  destruct (epoch_trace_split _ _ _ _ _ _ _ _ _ _ _ Hep') as (rest' & -> & Hrest').
  exists (epoch_key (seed cfg) j), rest, rest'. split_and!; try done.
  - intros ps k Hin. by apply (epoch_trace_eval_keys _ _ _ _ _ _ _ _ _ _ _ _ _ _ Hep Hin).
  - intros ps k Hin.
    by apply (epoch_trace_eval_keys _ _ _ _ _ _ _ _ _ _ _ _ _ _ Hep' Hin).
Qed.

End TwoRuns.

(** ** Whole runs: setup, the two scopes and the chain of epochs *)

Section WholeRuns.
Context `{O : Objects} (E : Externals).

Lemma train_cases cfg log_compiles gpu_acting w :
  run_shape E cfg log_compiles gpu_acting w (train E cfg log_compiles gpu_acting w).
Proof.
  unfold train, with_, split, unpack2. simpl.
  unfold mbind, mret, M_bind, M_ret, bind, ret, finally, call, emit, raise,
    of_result.
  simpl.
  destruct (setup_logger E cfg w) as [[logger|e] w1] eqn:H1; simpl;
    [|by eapply RS_setup_fails; [eapply SF_logger|]].
  destruct (setup_env E cfg w1) as [[env|e] w2] eqn:H2; simpl;
    [|by eapply RS_setup_fails; [eapply SF_env|]].
  destruct (_setup_actor_critic_neworks E cfg env w2) as [[nets|e] w3] eqn:H3;
    simpl; [|by eapply RS_setup_fails; [eapply SF_networks|]].
  destruct (optax_adam E _ w3) as [[opt|e] w4] eqn:H4; simpl;
    [|by eapply RS_setup_fails; [eapply SF_optimizer|]].
  destruct (A2CAgent E env _ _ nets opt _ gpu_acting w4) as [[agent|e] w5]
    eqn:H5; simpl; [|by eapply RS_setup_fails; [eapply SF_agent|]].
  destruct (setup_evaluators E cfg agent w5) as [[evaluators|e] w6] eqn:H6;
    simpl; [|by eapply RS_setup_fails; [eapply SF_evaluators|]].
  destruct (setup_training_state E env agent _ w6) as [[ts|e] w7] eqn:H7; simpl;
    [|by eapply RS_setup_fails; [eapply SF_training_state|]].
  assert (setup_trace E cfg gpu_acting w logger agent evaluators ts w7) as Hsetup
    by (by eapply Setup_done).
  destruct (log_compiles_enter E log_compiles w7) as [[[]|e] w8] eqn:H8; simpl;
    [|by eapply RS_log_compiles_fails].
  destruct (logger_enter E logger w8) as [[[]|e] w9] eqn:H9; simpl.
  - fold (epoch_loop E cfg gpu_acting logger agent evaluators ts).
    eapply (RS_entered E _ _ _ _ _ logger agent evaluators ts w7 w8 w9);
      try done; unfold leave_scopes, after_exit;
      destruct (epoch_loop E cfg gpu_acting logger agent evaluators ts w9)
        as [[st|e] w10 evs]; simpl.
    + destruct (logger_exit E logger None w10) as [[[]|e] w11]; simpl;
        by destruct (log_compiles_exit E log_compiles _ w11) as [[[]|e'] w12].
    + destruct (logger_exit E logger (Some e) w10) as [[[]|e1] w11]; simpl;
        by destruct (log_compiles_exit E log_compiles _ w11) as [[[]|e'] w12].
    + destruct (logger_exit E logger None w10) as [[[]|e] w11]; simpl;
        destruct (log_compiles_exit E log_compiles _ w11) as [[[]|e'] w12];
        simpl; by rewrite ?app_nil_r.
    + destruct (logger_exit E logger (Some e) w10) as [[[]|e1] w11]; simpl;
        destruct (log_compiles_exit E log_compiles _ w11) as [[[]|e'] w12];
        simpl; by rewrite ?app_nil_r.
  - eapply (RS_logger_fails E _ _ _ _ _ logger agent evaluators ts w7 w8 e w9);
      try done; unfold after_exit;
      by destruct (log_compiles_exit E log_compiles _ w9) as [[[]|e'] w10].
Qed.


(** *** The loop, epoch by epoch *)

Lemma for_each_loop g logger agent se ge et tt N xs : ∀ key ts w,
  loop_trace E g agent et tt N xs key ts
    (epochs_of (events (for_each xs (epoch E g logger agent se ge et tt N)
                                 (key, ts) w)))
    (is_ok (outcome (for_each xs (epoch E g logger agent se ge et tt N)
                              (key, ts) w))).
Proof.
  induction xs as [|i0 xs IH]; intros key ts w; [constructor|].
  rewrite for_each_cons.
  pose proof (epoch_run E g logger agent se ge et tt N i0 key ts w) as Hrun.
  pose proof (epoch_trace_in_epoch _ _ _ _ _ _ _ _ _ _ _ Hrun) as Hin.
  destruct (epoch E g logger agent se ge et tt N i0 (key, ts) w)
    as [[[key' ts']|e] w' evs0]; simpl in *.
  - assert (key' = SubKey key 3 0) as ->
      by (inversion Hrun as [| |e1 e2 e3 [ts1|] ? ? ? Heq]; by simplify_eq/=).
    pose proof (for_each_starts (epoch E g logger agent se ge et tt N)
                  xs (SubKey key 3 0, ts') w') as Hstart.
    rewrite (take_while_app_stop _ _ _ Hin Hstart), epochs_of_app_inside by done.
    eapply LT_next; [exact Hrun|apply IH].
  - rewrite <- (app_nil_r evs0) at 1 2.
    rewrite take_while_app_stop, epochs_of_app_inside by eauto.
    by apply LT_raises.
Qed.

(** The trace of the loop is the concatenation of its epochs. *)
Lemma for_each_concat g logger agent se ge et tt N xs : ∀ st w,
  events (for_each xs (epoch E g logger agent se ge et tt N) st w)
  = flat_map (λ ie, EvIter ie.1 :: ie.2)
      (epochs_of (events (for_each xs (epoch E g logger agent se ge et tt N)
                                   st w))).
Proof.
  induction xs as [|i0 xs IH]; intros [key ts] w; [done|].
  rewrite for_each_cons.
  pose proof (epoch_run E g logger agent se ge et tt N i0 key ts w) as Hrun.
  pose proof (epoch_trace_in_epoch _ _ _ _ _ _ _ _ _ _ _ Hrun) as Hin.
  destruct (epoch E g logger agent se ge et tt N i0 (key, ts) w)
    as [[st'|e] w' evs0]; simpl in *.
  - pose proof (for_each_starts (epoch E g logger agent se ge et tt N)
                  xs st' w') as Hstart.
    rewrite (take_while_app_stop _ _ _ Hin Hstart), epochs_of_app_inside by done.
    by rewrite <- IH.
  - rewrite <- (app_nil_r evs0) at 2 3.
    rewrite take_while_app_stop, epochs_of_app_inside by eauto.
    simpl. by rewrite app_nil_r.
Qed.


Lemma entered_epochs cfg (r : Run unit) l exc :
  events r = seed_split cfg :: EvLoggerEnter :: l ++ [EvLoggerExit exc] →
  epochs_of (events r) = epochs_of l.
Proof. intros ->. simpl. apply epochs_of_app_exit. Qed.

Lemma leave_scopes_ok log_compiles logger l :
  is_ok (leave_scopes E log_compiles logger l) = true → is_ok (outcome l) = true.
Proof.
  unfold leave_scopes, after_exit.
  destruct (outcome l); [done|]. simpl.
  destruct (logger_exit E logger (Some e) (world l)) as [[[]|e1] w1]; simpl;
    by destruct (log_compiles_exit E log_compiles _ w1) as [[[]|e2] w2].
Qed.

(** *** The replica axis, setup and the way a run ends *)

Lemma tree_map_index0_add_axis ts :
  tree_map_opt index0 (tree_map add_axis ts) = Some ts.
Proof.
  unfold tree_map_opt, tree_map. simpl.
  assert (∀ l : Leaves, mapM index0 (add_axis <$> l) = Some l) as Hl.
  { intros l. apply mapM_fmap_Some. by intros []. }
  rewrite !Hl. simpl. by destruct ts as [[[] ?] ?].
Qed.

Lemma add_axis_index0_leaf x y :
  index0 x = Some y → (add_axis y = x ↔ leading_axis (arr_val x) = Some 1%nat).
Proof.
  unfold index0, add_axis. destruct x as [[v|[|z zs]] d]; simpl; try done.
  intros [= <-]. simpl. split.
  - by intros [= <-].
  - intros [= Hlen]. by destruct zs.
Qed.

Lemma add_axis_index0_leaves (l k : Leaves) :
  Forall2 (λ x y, index0 x = Some y) l k →
  (add_axis <$> k = l ↔ Forall (λ x, leading_axis (arr_val x) = Some 1%nat) l).
Proof.
  induction 1 as [|x y l k Hxy _ IH].
  - split; [constructor|done].
  - rewrite fmap_cons, Forall_cons, <- IH, <- (add_axis_index0_leaf x y Hxy).
    split; [by intros [= -> ->]|by intros [-> ->]].
Qed.

Lemma tree_map_add_axis_index0 ts ts0 :
  tree_map_opt index0 ts = Some ts0 →
  tree_map add_axis ts0 = ts ↔ Forall (λ a, a = Some 1%nat) (leading_axes ts).
Proof.
  intros Hts. unfold leading_axes. rewrite Forall_fmap.
  unfold tree_map_opt in Hts.
  destruct (mapM index0 (actor _)) as [a'|] eqn:Ha; simplify_eq/=.
  destruct (mapM index0 (critic _)) as [c'|] eqn:Hc; simplify_eq/=.
  destruct (mapM index0 (opt_state _)) as [o'|] eqn:Ho; simplify_eq/=.
  destruct (mapM index0 (acting_state _)) as [s'|] eqn:Hs; simplify_eq/=.
  apply mapM_Some, add_axis_index0_leaves in Ha, Hc, Ho, Hs.
  unfold ts_leaves, tree_map. rewrite !Forall_app. simpl.
  destruct ts as [[[a c] o] s]; simpl in *.
  change (Forall ((λ a0, a0 = Some 1%nat) ∘ (λ x, leading_axis (arr_val x))))
    with (Forall (λ x, leading_axis (arr_val x) = Some 1%nat)).
  rewrite <- Ha, <- Hc, <- Ho, <- Hs.
  split.
  - by intros [= -> -> -> ->].
  - by intros (-> & -> & -> & ->).
Qed.

(** X1: re-attaching the replica axis and taking index 0 again gives the
    state back ([x[None][0]] is [x]); taking index 0 and re-attaching the
    axis gives the state back exactly when every leaf had a replica axis
    of length 1. *)
Theorem replica_axis_round_trip ts :
  tree_map_opt index0 (tree_map add_axis ts) = Some ts ∧
  ∀ ts0, tree_map_opt index0 ts = Some ts0 →
    (tree_map add_axis ts0 = ts ↔
     Forall (λ a, a = Some 1%nat) (leading_axes ts)).
Proof.
  split; [apply tree_map_index0_add_axis|apply tree_map_add_axis_index0].
Qed.

Lemma index0_None x :
  index0 x = None ↔
  leading_axis (arr_val x) = None ∨ leading_axis (arr_val x) = Some 0%nat.
Proof.
  unfold index0. destruct (arr_val x) as [v|[|z zs]]; simpl;
    intuition congruence.
Qed.

Lemma tree_map_opt_index0_None ts :
  tree_map_opt index0 ts = None ↔
  Exists (λ a, a = None ∨ a = Some 0%nat) (leading_axes ts).
Proof.
  assert (∀ l : Leaves,
    Exists ((λ a, a = None ∨ a = Some 0%nat) ∘ (λ x, leading_axis (arr_val x))) l
    ↔ mapM index0 l = None) as Hl.
  { intros l. rewrite mapM_None, !Exists_exists.
    by setoid_rewrite index0_None. }
  unfold leading_axes, ts_leaves. rewrite Exists_fmap, !Exists_app, !Hl.
  unfold tree_map_opt.
  destruct (mapM index0 (actor _)); simpl; [|intuition congruence].
  destruct (mapM index0 (critic _)); simpl; [|intuition congruence].
  destruct (mapM index0 (opt_state _)); simpl; [|intuition congruence].
  destruct (mapM index0 (acting_state _)); simpl; intuition congruence.
Qed.

(** X2: when some leaf of the training state is 0-d or has an empty
    leading axis, [epoch_fn] raises [IndexError] at its first line: nothing
    has been called, no event is issued and the world is untouched. *)
Theorem epoch_fn_index_error gpu_acting agent ts w :
  Exists (λ a, a = None ∨ a = Some 0%nat) (leading_axes ts) →
  epoch_fn E gpu_acting agent ts w = mkRun (Raise IndexError) w [].
Proof.
  intros Hts%tree_map_opt_index0_None. unfold epoch_fn. by rewrite Hts.
Qed.

(** X3: a run that enters the logger scope has made the seven setup
    calls in the order of the source, each in the world the previous one
    left, with the environment passed to the networks, the agent and the
    training state, the agent to the evaluators and the training state,
    and [init_key] to [setup_training_state]; it then entered
    [jax.log_compiles] and the logger, in that order, and its loop started
    from the first half of the seed split and the training state that
    setup returned. *)
Theorem setup_precedes_loop cfg log_compiles gpu_acting w :
  EvLoggerEnter ∈ events (train E cfg log_compiles gpu_acting w) →
  ∃ logger agent evaluators ts w7 w8 w9,
    setup_trace E cfg gpu_acting w logger agent evaluators ts w7 ∧
    log_compiles_enter E log_compiles w7 = (Ok tt, w8) ∧
    logger_enter E logger w8 = (Ok tt, w9) ∧
    events (train E cfg log_compiles gpu_acting w)
      = seed_split cfg :: EvLoggerEnter
        :: events (epoch_loop E cfg gpu_acting logger agent evaluators ts w9)
        ++ [EvLoggerExit (exc_of (outcome
              (epoch_loop E cfg gpu_acting logger agent evaluators ts w9)))].
Proof.
  intros Hin.
  destruct (train_cases cfg log_compiles gpu_acting w)
    as [e w' _ Hr|logger agent evaluators ts w7 e w8 _ _ Hr
       |logger agent evaluators ts w7 w8 e w9 _ _ _ _ Hev
       |logger agent evaluators ts w7 w8 w9 l Hsetup H8 H9 _ Hev].
  - rewrite Hr in Hin. simpl in Hin. unfold seed_split in Hin.
    set_unfold in Hin. by destruct_or?.
  - rewrite Hr in Hin. simpl in Hin. unfold seed_split in Hin.
    set_unfold in Hin. by destruct_or?.
  - rewrite Hev in Hin. unfold seed_split in Hin.
    set_unfold in Hin. by destruct_or?.
  - by exists logger, agent, evaluators, ts, w7, w8, w9.
Qed.

(** X4: when a setup call raises, [train] raises the same exception, in
    the world that call left: nothing is called after it, and the only
    event is the seed split. *)
Theorem setup_failure_propagates cfg log_compiles gpu_acting w e w' :
  setup_fails E cfg gpu_acting w e w' →
  train E cfg log_compiles gpu_acting w = mkRun (Raise e) w' [seed_split cfg].
Proof.
  intros Hfail.
  unfold train, with_, split, unpack2. simpl.
  unfold mbind, mret, M_bind, M_ret, bind, ret, finally, call, emit, raise,
    of_result.
  simpl.
  destruct Hfail;
    repeat match goal with
           | H : ?op = (_, _) |- context [?op] => rewrite H; simpl
           end; reflexivity.
Qed.

(** X5: when the exits of the two scopes return, [train] ends the way
    its loop ended: it returns if the logger was released without an
    exception, and raises the exception the logger was released with
    otherwise. *)
Theorem train_ends_as_its_loop cfg log_compiles gpu_acting w exc :
  (∀ l x, ext_returns _ (logger_exit E l x)) →
  (∀ b x, ext_returns _ (log_compiles_exit E b x)) →
  EvLoggerExit exc ∈ events (train E cfg log_compiles gpu_acting w) →
  outcome (train E cfg log_compiles gpu_acting w)
    = match exc with None => Ok tt | Some e => Raise e end.
Proof.
  intros Hl Hc Hin.
  destruct (train_cases cfg log_compiles gpu_acting w)
    as [e w' _ Hr|logger agent evaluators ts w7 e w8 _ _ Hr
       |logger agent evaluators ts w7 w8 e w9 _ _ _ _ Hev
       |logger agent evaluators ts w7 w8 w9 l Hsetup H8 H9 Hout Hev].
  - rewrite Hr in Hin. simpl in Hin. unfold seed_split in Hin.
    set_unfold in Hin. by destruct_or?.
  - rewrite Hr in Hin. simpl in Hin. unfold seed_split in Hin.
    set_unfold in Hin. by destruct_or?.
  - rewrite Hev in Hin. unfold seed_split in Hin.
    set_unfold in Hin. by destruct_or?.
  - rewrite Hev in Hin. rewrite Hout.
    assert (exc = exc_of (outcome l)) as ->.
    { pose proof (for_each_events E gpu_acting logger agent evaluators.1
                    evaluators.2 (mkTimer "metrics" None)
                    (mkTimer "metrics" (Some (steps_per_epoch cfg)))
                    (steps_per_epoch cfg) (trange (num_epochs cfg))
                    (SubKey (PRNGKey (seed cfg)) 2 0, ts) w9) as Hloop.
      fold (epoch_loop E cfg gpu_acting logger agent evaluators ts) in Hloop.
      fold l in Hloop. rewrite Forall_forall in Hloop.
      unfold seed_split in Hin. set_unfold in Hin.
      destruct Hin as [?|[?|[Hin|[?|[]]]]]; simplify_eq; [|done].
      destruct (Hloop _ Hin) as [_ Hne]. by destruct (Hne exc). }
    unfold leave_scopes, after_exit.
    destruct (outcome l) as [st|e]; simpl.
    + specialize (Hl logger None (world l)).
      destruct (logger_exit E logger None (world l)) as [[[]|e1] w1];
        simplify_eq/=.
      specialize (Hc log_compiles None w1).
      by destruct (log_compiles_exit E log_compiles None w1) as [[[]|e2] w2].
    + specialize (Hl logger (Some e) (world l)).
      destruct (logger_exit E logger (Some e) (world l)) as [[[]|e1] w1];
        simplify_eq/=.
      specialize (Hc log_compiles (Some e) w1).
      by destruct (log_compiles_exit E log_compiles (Some e) w1) as [[[]|e2] w2].
Qed.

(** X6: with [num_epochs <= 0] the loop body never runs: a run either
    stops before the logger scope, or enters it and leaves it at once, with
    nothing evaluated, trained or written. *)
Theorem nothing_runs_without_epochs cfg log_compiles gpu_acting w :
  num_epochs cfg ≤ 0 →
  (events (train E cfg log_compiles gpu_acting w) = [seed_split cfg] ∧
   is_ok (outcome (train E cfg log_compiles gpu_acting w)) = false) ∨
  events (train E cfg log_compiles gpu_acting w)
    = [seed_split cfg; EvLoggerEnter; EvLoggerExit None].
Proof.
  intros Hn.
  destruct (train_cases cfg log_compiles gpu_acting w)
    as [e w' _ Hr|logger agent evaluators ts w7 e w8 _ _ Hr
       |logger agent evaluators ts w7 w8 e w9 _ _ _ Hout Hev
       |logger agent evaluators ts w7 w8 w9 l Hsetup H8 H9 Hout Hev].
  - left. by rewrite Hr.
  - left. by rewrite Hr.
  - left. split; [done|]. rewrite Hout. unfold after_exit.
    by destruct (log_compiles_exit E log_compiles (Some e) w9) as [[[]|e2] w2].
  - right. rewrite Hev. subst l. unfold epoch_loop, trange.
    assert (seqZ 0 (num_epochs cfg) = []) as ->; [|done].
    unfold seqZ. by replace (Z.to_nat (num_epochs cfg)) with 0%nat by lia.
Qed.


(** *** What one epoch reads and hands on *)

Lemma epoch_trace_inputs g agent et tt N i key ts r evs :
  epoch_trace E g agent et tt N i key ts r evs →
  (∀ which ps k, EvRunEvaluation which ps k ∈ evs → ps = params_state ts) ∧
  (∀ ts2 d, EvGradientStep ts2 d ∈ evs →
     ∃ ts0, tree_map_opt index0 ts = Some ts0 ∧
       params_state ts2 = params_state ts0) ∧
  (∀ p a, EvRollout p a ∈ evs →
     ∃ ts0 cpu, tree_map_opt index0 ts = Some ts0 ∧ acting_device E g cpu ∧
       p = placed cpu (actor (params (params_state ts0))) ∧
       a = placed cpu (acting_state ts0)).
Proof.
  intros Hep. split_and!.
  - intros which ps k Hin.
    apply (epoch_trace_alphabet E _ _ _ _ _
             (λ e, ∀ which ps k, e = EvRunEvaluation which ps k →
                ps = params_state ts))
      in Hep; try (intros; simplify_eq; done).
    rewrite Forall_forall in Hep. by eapply Hep.
  - intros ts2 d Hin.
    epoch_cases Hep; set_unfold in Hin; destruct_or?; simplify_eq; eauto.
  - intros p a Hin.
    epoch_cases Hep; set_unfold in Hin; destruct_or?; simplify_eq;
      first
        [ by eexists _, None
        | eexists _, (Some _); split_and!;
          [eassumption|unfold acting_device; eauto|reflexivity..] ].
Qed.

Lemma epoch_trace_returned g agent et tt N i key ts st' evs :
  epoch_trace E g agent et tt N i key ts (Some st') evs →
  ∃ ts1 raw data,
    st' = (SubKey key 3 0, tree_map add_axis ts1) ∧
    EvGradientStepRet ts1 raw ∈ evs ∧
    last evs = Some (EvWrite data "train" (i * N)) ∧
    log_lines evs
      = (λ l, (l, i * N)) <$> epoch_labels (isinstance_RandomAgent E agent).
Proof.
  intros Hep. unfold epoch_labels.
  epoch_cases Hep;
    repeat match goal with
           | H : context [isinstance_RandomAgent] |- _ => rewrite H
           | H : (if ?b then _ else _) = Some _ |- _ => destruct b; simplify_eq/=
           | H : _ <$> _ = Some _ |- _ => apply fmap_Some in H as (? & ? & ?)
           end; simplify_eq/=;
    eexists _, _, _; split_and!; try reflexivity; find_elem.
Qed.

Lemma loop_trace_lookup g agent et tt N xs key ts eps ok (j : nat) i evs :
  loop_trace E g agent et tt N xs key ts eps ok →
  eps !! j = Some (i, evs) →
  ∃ key' ts' r,
    epoch_trace E g agent et tt N i key' ts' r evs ∧
    (j = 0%nat → ts' = ts) ∧
    ((S j < length eps)%nat ∨ ok = true → is_Some r) ∧
    ∀ i2 evs2, eps !! S j = Some (i2, evs2) →
      ∃ ts2 r2, r = Some (SubKey key' 3 0, ts2) ∧
        epoch_trace E g agent et tt N i2 (SubKey key' 3 0) ts2 r2 evs2.
Proof.
  intros Hloop. revert j.
  induction Hloop as [key ts|i0 xs key ts evs0 Hep
                     |i0 xs key ts ts' evs0 rest ok Hep Hrest IH]; intros j Hj.
  - done.
  - destruct j as [|j]; simplify_eq/=.
    eexists _, _, _. split_and!; [done|done| |done].
    intros [?|?]; [lia|done].
  - destruct j as [|j]; simplify_eq/=.
    + eexists _, _, _. split_and!; [done|done|by eauto|].
      intros i2 evs2 H2. destruct Hrest; simplify_eq/=; eauto.
    + destruct (IH j Hj) as (key' & ts2 & r & Hep' & _ & Hsome & Hnext).
      eexists _, _, _. split_and!; [done|done| |done].
      intros [?|?]; apply Hsome; [left; lia|by right].
Qed.

(** The epochs of a run, from the state that setup returned. *)
Lemma train_loop cfg log_compiles gpu_acting w :
  epochs_of (events (train E cfg log_compiles gpu_acting w)) = [] ∨
  ∃ logger agent evaluators ts w7 ok,
    setup_trace E cfg gpu_acting w logger agent evaluators ts w7 ∧
    loop_trace E gpu_acting agent (mkTimer "metrics" None)
      (mkTimer "metrics" (Some (steps_per_epoch cfg))) (steps_per_epoch cfg)
      (trange (num_epochs cfg)) (SubKey (PRNGKey (seed cfg)) 2 0) ts
      (epochs_of (events (train E cfg log_compiles gpu_acting w))) ok ∧
    (is_ok (outcome (train E cfg log_compiles gpu_acting w)) = true → ok = true).
Proof.
  destruct (train_cases cfg log_compiles gpu_acting w)
    as [e w' _ Hr|logger agent evaluators ts w7 e w8 _ _ Hr
       |logger agent evaluators ts w7 w8 e w9 _ _ _ _ Hev
       |logger agent evaluators ts w7 w8 w9 l Hsetup H8 H9 Hout Hev].
  - left. by rewrite Hr.
  - left. by rewrite Hr.
  - left. by rewrite Hev.
  - right. exists logger, agent, evaluators, ts, w7, (is_ok (outcome l)).
    split_and!; [done| |].
    + rewrite (entered_epochs _ _ _ _ Hev). apply for_each_loop.
    + rewrite Hout. apply leave_scopes_ok.
Qed.

(** X7: in every epoch both evaluations are run on the parameter state
    of the training state carried into the epoch, that is before the update
    of this epoch, and the gradient step of the epoch is called on index 0
    of that same parameter state; in the first epoch this is the state
    [setup_training_state] returned. *)
Theorem evaluation_before_update cfg log_compiles gpu_acting w (j : nat) i evs :
  epochs_of (events (train E cfg log_compiles gpu_acting w)) !! j
    = Some (i, evs) →
  ∃ ts,
    (∀ which ps k, EvRunEvaluation which ps k ∈ evs → ps = params_state ts) ∧
    (∀ ts2 d, EvGradientStep ts2 d ∈ evs →
       ∃ ts0, tree_map_opt index0 ts = Some ts0 ∧
         params_state ts2 = params_state ts0) ∧
    (j = 0%nat →
     ∃ logger agent evaluators w7,
       setup_trace E cfg gpu_acting w logger agent evaluators ts w7).
Proof.
  intros Hj.
  destruct (train_loop cfg log_compiles gpu_acting w)
    as [Hnil|(logger & agent & evaluators & ts & w7 & ok & Hsetup & Hloop & _)];
    [by rewrite Hnil in Hj|].
  destruct (loop_trace_lookup _ _ _ _ _ _ _ _ _ _ _ _ _ Hloop Hj)
    as (key' & ts' & r & Hep & Hfirst & _).
  destruct (epoch_trace_inputs _ _ _ _ _ _ _ _ _ _ Hep) as (Hev & Hgrad & _).
  exists ts'. split_and!; [done..|].
  intros ->. rewrite (Hfirst eq_refl). eauto.
Qed.

(** X8: what the gradient step of an epoch returned is what the next
    epoch works on: the next epoch evaluates its parameter state (with the
    replica axis re-attached), calls the rollout on its actor parameters
    and acting state (put on the acting device) and the gradient step on
    its parameter state. *)
Theorem state_carried_over cfg log_compiles gpu_acting w (j : nat) i evs i' evs' :
  epochs_of (events (train E cfg log_compiles gpu_acting w)) !! j
    = Some (i, evs) →
  epochs_of (events (train E cfg log_compiles gpu_acting w)) !! S j
    = Some (i', evs') →
  ∃ ts1 raw,
    EvGradientStepRet ts1 raw ∈ evs ∧
    (∀ which ps k, EvRunEvaluation which ps k ∈ evs' →
       ps = params_state (tree_map add_axis ts1)) ∧
    (∀ p a, EvRollout p a ∈ evs' →
       ∃ cpu, acting_device E gpu_acting cpu ∧
         p = placed cpu (actor (params (params_state ts1))) ∧
         a = placed cpu (acting_state ts1)) ∧
    (∀ ts2 d, EvGradientStep ts2 d ∈ evs' →
       params_state ts2 = params_state ts1).
Proof.
  intros Hj Hj'.
  destruct (train_loop cfg log_compiles gpu_acting w)
    as [Hnil|(logger & agent & evaluators & ts & w7 & ok & Hsetup & Hloop & _)];
    [by rewrite Hnil in Hj|].
  destruct (loop_trace_lookup _ _ _ _ _ _ _ _ _ _ _ _ _ Hloop Hj)
    as (key' & ts' & r & Hep & _ & _ & Hnext).
  destruct (Hnext _ _ Hj') as (ts2 & r2 & -> & Hep').
  destruct (epoch_trace_returned _ _ _ _ _ _ _ _ _ _ Hep)
    as (ts1 & raw & data & [= ->] & Hret & _).
  destruct (epoch_trace_inputs _ _ _ _ _ _ _ _ _ _ Hep')
    as (Hev & Hgrad & Hroll).
  exists ts1, raw. split_and!; [done|done|..].
  - intros p a Hin.
    destruct (Hroll p a Hin) as (ts0 & cpu & Hts0 & Hcpu & -> & ->).
    rewrite tree_map_index0_add_axis in Hts0. simplify_eq. eauto.
  - intros ts3 d Hin.
    destruct (Hgrad ts3 d Hin) as (ts0 & Hts0 & ->).
    rewrite tree_map_index0_add_axis in Hts0. by simplify_eq.
Qed.

(** X9: the loop stops at the first epoch that raises: an epoch followed
    by another one, and every epoch of a run that returned, ran to its end,
    its last event being the write under ["train"]. *)
Theorem only_the_last_epoch_is_cut_short cfg log_compiles gpu_acting w
    (j : nat) i evs :
  epochs_of (events (train E cfg log_compiles gpu_acting w)) !! j
    = Some (i, evs) →
  (S j < length (epochs_of (events (train E cfg log_compiles gpu_acting w))))%nat
  ∨ is_ok (outcome (train E cfg log_compiles gpu_acting w)) = true →
  ∃ data, last evs = Some (EvWrite data "train" (i * steps_per_epoch cfg)).
Proof.
  intros Hj Hnot_last.
  destruct (train_loop cfg log_compiles gpu_acting w)
    as [Hnil|(logger & agent & evaluators & ts & w7 & ok & Hsetup & Hloop & Hok)];
    [by rewrite Hnil in Hj|].
  destruct (loop_trace_lookup _ _ _ _ _ _ _ _ _ _ _ _ _ Hloop Hj)
    as (key' & ts' & r & Hep & _ & Hsome & _).
  destruct Hsome as [st' ->]; [destruct Hnot_last; eauto|].
  destruct (epoch_trace_returned _ _ _ _ _ _ _ _ _ _ Hep)
    as (ts1 & raw & data & _ & _ & Hlast & _).
  eauto.
Qed.


(** *** What a run logs *)

Lemma log_lines_app (l1 l2 : list Event) :
  log_lines (l1 ++ l2) = log_lines l1 ++ log_lines l2.
Proof. unfold log_lines, writes. by rewrite omap_app, fmap_app. Qed.

Lemma epoch_trace_log_prefix g agent et tt N i key ts r evs :
  epoch_trace E g agent et tt N i key ts r evs →
  log_lines evs `prefix_of`
    (λ l, (l, i * N)) <$> epoch_labels (isinstance_RandomAgent E agent).
Proof.
  intros Hep. unfold epoch_labels.
  epoch_cases Hep;
    repeat match goal with
           | H : isinstance_RandomAgent _ _ = _ |- _ => rewrite H
           end;
    unfold log_lines, writes; simpl;
    try destruct (isinstance_RandomAgent E agent); by eexists.
Qed.

Lemma loop_trace_log g agent et tt N xs key ts eps ok :
  loop_trace E g agent et tt N xs key ts eps ok →
  let logged := log_lines (flat_map (λ ie, EvIter ie.1 :: ie.2) eps) in
  let schedule :=
    flat_map (λ i, (λ l, (l, i * N)) <$>
                epoch_labels (isinstance_RandomAgent E agent)) xs in
  logged `prefix_of` schedule ∧ (ok = true → logged = schedule).
Proof.
  induction 1 as [key ts|i0 xs key ts evs0 Hep
                 |i0 xs key ts ts' evs0 rest ok Hep Hrest IH]; simpl.
  - done.
  - split; [|done]. rewrite app_nil_r.
    apply prefix_app_r.
    change (log_lines (EvIter i0 :: evs0)) with (log_lines evs0).
    by eapply epoch_trace_log_prefix.
  - change (log_lines (EvIter i0 :: evs0 ++ ?l)) with (log_lines (evs0 ++ l)).
    rewrite log_lines_app.
    destruct (epoch_trace_returned _ _ _ _ _ _ _ _ _ _ Hep)
      as (ts1 & raw & data & _ & _ & _ & ->).
    destruct IH as [IH1 IH2]. split.
    + by apply prefix_app.
    + intros Hok. by rewrite IH2.
Qed.

Lemma epoch_loop_log cfg gpu_acting logger agent evaluators ts w :
  let l := epoch_loop E cfg gpu_acting logger agent evaluators ts w in
  let schedule := log_schedule (isinstance_RandomAgent E agent)
                    (num_epochs cfg) (steps_per_epoch cfg) in
  log_lines (events l) `prefix_of` schedule ∧
  (is_ok (outcome l) = true → log_lines (events l) = schedule).
Proof.
  pose proof (for_each_loop gpu_acting logger agent evaluators.1 evaluators.2
                (mkTimer "metrics" None)
                (mkTimer "metrics" (Some (steps_per_epoch cfg)))
                (steps_per_epoch cfg) (trange (num_epochs cfg))
                (SubKey (PRNGKey (seed cfg)) 2 0) ts w) as Hloop.
  apply loop_trace_log in Hloop. cbv zeta in Hloop.
  by rewrite <- for_each_concat in Hloop.
Qed.

Lemma entered_log cfg (r : Run unit) l exc :
  events r = seed_split cfg :: EvLoggerEnter :: l ++ [EvLoggerExit exc] →
  log_lines (events r) = log_lines l.
Proof.
  intros ->.
  change (log_lines (seed_split cfg :: EvLoggerEnter :: ?x)) with (log_lines x).
  rewrite log_lines_app. apply app_nil_r.
Qed.

(** X10: what a run writes is, label by label and step by step, an
    initial part of the schedule [eval_stochastic], [eval_greedy] (left out
    for a [RandomAgent]), [train] at [env_steps = i * num_steps_per_epoch]
    for [i = 0, 1, ...]; a run that returned wrote the whole schedule of
    [num_epochs] epochs. *)
Theorem log_follows_the_schedule cfg log_compiles gpu_acting w :
  ∃ random,
    (∀ logger agent evaluators ts w7,
       setup_trace E cfg gpu_acting w logger agent evaluators ts w7 →
       random = isinstance_RandomAgent E agent) ∧
    log_lines (events (train E cfg log_compiles gpu_acting w))
      `prefix_of` log_schedule random (num_epochs cfg) (steps_per_epoch cfg) ∧
    (is_ok (outcome (train E cfg log_compiles gpu_acting w)) = true →
     log_lines (events (train E cfg log_compiles gpu_acting w))
       = log_schedule random (num_epochs cfg) (steps_per_epoch cfg)).
Proof.
  assert (∀ logger agent evaluators ts w7 logger' agent' evaluators' ts' w7',
    setup_trace E cfg gpu_acting w logger agent evaluators ts w7 →
    setup_trace E cfg gpu_acting w logger' agent' evaluators' ts' w7' →
    agent' = agent) as Hfun.
  { intros ?????????? H1 H2. destruct H1, H2. congruence. }
  destruct (train_cases cfg log_compiles gpu_acting w)
    as [e w' Hfail Hr|logger agent evaluators ts w7 e w8 Hsetup _ Hr
       |logger agent evaluators ts w7 w8 e w9 Hsetup _ _ Hout Hev
       |logger agent evaluators ts w7 w8 w9 l Hsetup H8 H9 Hout Hev].
  - exists true. rewrite Hr. simpl. split_and!; [|apply prefix_nil|done].
    intros ????? Hsetup. exfalso.
    destruct Hsetup, Hfail; congruence.
  - exists (isinstance_RandomAgent E agent). rewrite Hr. simpl.
    split_and!; [|apply prefix_nil|done].
    intros ????? Hsetup'. by rewrite (Hfun _ _ _ _ _ _ _ _ _ _ Hsetup Hsetup').
  - exists (isinstance_RandomAgent E agent). rewrite Hev, Hout.
    split_and!; [|apply prefix_nil|].
    + intros ????? Hsetup'. by rewrite (Hfun _ _ _ _ _ _ _ _ _ _ Hsetup Hsetup').
    + unfold after_exit.
      by destruct (log_compiles_exit E log_compiles (Some e) w9) as [[[]|e2] w2].
  - exists (isinstance_RandomAgent E agent).
    rewrite (entered_log _ _ _ _ Hev).
    destruct (epoch_loop_log cfg gpu_acting logger agent evaluators ts w9)
      as [Hpre Hall].
    split_and!; [|done|].
    + intros ????? Hsetup'. by rewrite (Hfun _ _ _ _ _ _ _ _ _ _ Hsetup Hsetup').
    + intros Hok. apply Hall. rewrite Hout in Hok. by apply leave_scopes_ok in Hok.
Qed.

Lemma seqZ_sorted a n : StronglySorted Z.le (seqZ a n).
Proof.
  unfold seqZ. generalize (Z.to_nat n) as k. generalize 0%nat as m.
  intros m k. revert m.
  induction k as [|k IH]; intros m; simpl; constructor; [apply IH|].
  apply Forall_fmap, Forall_forall. intros x Hx%elem_of_seq. simpl. lia.
Qed.

Lemma schedule_sorted random N xs :
  0 ≤ N → StronglySorted Z.le xs →
  StronglySorted Z.le
    (flat_map (λ i, (λ l, (l, i * N)) <$> epoch_labels random) xs).*2.
Proof.
  intros HN. induction 1 as [|i xs Hxs IH Hi]; simpl; [constructor|].
  rewrite fmap_app. apply StronglySorted_app_2; [| |done].
  - intros s s' Hs Hs'. rewrite Forall_forall in Hi.
    apply list_elem_of_fmap in Hs as ([l1 s1] & -> & Hs).
    apply list_elem_of_fmap in Hs as (l2 & [= -> ->] & _).
    apply list_elem_of_fmap in Hs' as ([l3 s3] & -> & Hs').
    apply list_elem_of_In, in_flat_map in Hs' as (i' & Hi' & Hl).
    apply list_elem_of_In, Hi in Hi'.
    apply list_elem_of_In, list_elem_of_fmap in Hl as (l4 & [= -> ->] & _).
    simpl. nia.
  - unfold epoch_labels. destruct random; simpl;
      repeat (constructor; [|repeat constructor; lia]); constructor.
Qed.

(** X11: when [num_steps_per_epoch] is not negative, the [env_steps] of
    successive writes never decrease. *)
Theorem env_steps_never_decrease cfg log_compiles gpu_acting w :
  0 ≤ steps_per_epoch cfg →
  StronglySorted Z.le
    ((log_lines (events (train E cfg log_compiles gpu_acting w))).*2).
Proof.
  intros HN.
  destruct (train_cases cfg log_compiles gpu_acting w)
    as [e w' _ Hr|logger agent evaluators ts w7 e w8 _ _ Hr
       |logger agent evaluators ts w7 w8 e w9 _ _ _ _ Hev
       |logger agent evaluators ts w7 w8 w9 l _ _ _ _ Hev].
  - rewrite Hr. constructor.
  - rewrite Hr. constructor.
  - rewrite Hev. constructor.
  - rewrite (entered_log _ _ _ _ Hev).
    destruct (epoch_loop_log cfg gpu_acting logger agent evaluators ts w9)
      as [[k Hpre] _].
    pose proof (schedule_sorted (isinstance_RandomAgent E agent) _ _ HN
                  (seqZ_sorted 0 (num_epochs cfg))) as Hsorted.
    fold (log_schedule (isinstance_RandomAgent E agent) (num_epochs cfg)
            (steps_per_epoch cfg)) in Hsorted.
    rewrite Hpre, fmap_app in Hsorted.
    by apply StronglySorted_app_1_l in Hsorted.
Qed.

(** X12: in every epoch the timing scopes are well bracketed and not
    nested, each closed by the timer that opened it; the evaluator runs
    inside a scope of [eval_timer], the device transfers, the rollout and
    the gradient step inside a scope of [train_timer], and the key split
    and the writes outside any scope. *)
Theorem timing_scopes cfg log_compiles gpu_acting w (j : nat) i evs :
  epochs_of (events (train E cfg log_compiles gpu_acting w)) !! j
    = Some (i, evs) →
  scoped (mkTimer "metrics" None)
         (mkTimer "metrics" (Some (steps_per_epoch cfg))) None evs = true.
Proof.
  intros (-> & _ & agent & ts & r & _ & Hep)%train_epochs.
  epoch_cases Hep;
    repeat (cbn [scoped andb app]; rewrite ?bool_decide_eq_true_2 by done);
    reflexivity.
Qed.


(** *** How a run can fail when every delegated call returns *)

Lemma ends_ret {A} (a : A) (Q : A → Prop) X : Q a → ends (mret a) Q X.
Proof. by intros HQ w. Qed.

Lemma ends_raise {A} e (Q : A → Prop) (X : Exn → Prop) :
  X e → ends (raise e) Q X.
Proof. by intros HX w. Qed.

Lemma ends_emit e (Q : unit → Prop) X : Q tt → ends (emit e) Q X.
Proof. by intros HQ w. Qed.

Lemma ends_call {A} (op : ext A) (Q : A → Prop) X :
  ext_returns A op → (∀ a, Q a) → ends (call op) Q X.
Proof.
  intros Hop HQ w. specialize (Hop w). unfold call.
  destruct (op w) as [[a|e] w']; simplify_eq/=. apply HQ.
Qed.

Lemma ends_bind {A B} (m : M A) (f : A → M B) P Q X :
  ends m P X → (∀ a, P a → ends (f a) Q X) → ends (m ≫= f) Q X.
Proof.
  intros Hm Hf w. rewrite bind_run. specialize (Hm w).
  destruct (outcome (m w)) as [a|e]; simpl; [|done]. by apply Hf.
Qed.

Lemma ends_weaken {A} (m : M A) (P Q : A → Prop) (X Y : Exn → Prop) :
  ends m P X → (∀ a, P a → Q a) → (∀ e, X e → Y e) → ends m Q Y.
Proof.
  intros Hm HPQ HXY w. specialize (Hm w).
  destruct (outcome (m w)); eauto.
Qed.

Lemma ends_finally {A} (body : M A) leave P X1 Q X :
  ends body P X1 →
  (∀ a, P a → ends (leave (Ok a)) Q X) →
  (∀ e, X1 e → ends (leave (Raise e)) Q X) →
  ends (finally body leave) Q X.
Proof.
  intros Hb Hok Hexc w. unfold finally. specialize (Hb w).
  destruct (body w) as [[a|e] w' evs]; simpl in *.
  - specialize (Hok a Hb w'). by destruct (leave (Ok a) w').
  - specialize (Hexc e Hb w'). by destruct (leave (Raise e) w').
Qed.

Section Failing.
Hypothesis Hc : components_satisfy E ext_returns.
Hypothesis Ht : timers_satisfy E ext_returns.
Variable gpu_acting : bool.

(** A block made of events and delegated calls returns. *)
Ltac ends_block :=
  lazymatch goal with
  | |- ends (_ ≫= _) _ _ =>
      eapply (ends_bind _ _ (λ _, True));
      [ends_block|intros ? _; ends_block]
  | |- ends (emit _) _ _ => by apply ends_emit
  | |- ends (call _) _ _ =>
      apply ends_call; [first [apply Hc|apply Ht]|done]
  | |- ends (mret _) _ _ => by apply ends_ret
  | |- ends (ret _) _ _ => by apply ends_ret
  end.

Lemma epoch_fn_ends agent ts :
  ends (epoch_fn E gpu_acting agent ts)
       (λ r, runnable E gpu_acting ts ∧ replicated r.1)
       (λ e, e = IndexError ∧ ¬ runnable E gpu_acting ts).
Proof.
  intros w. unfold runnable, replicated.
  unfold epoch_fn, first_device, device_put. run_driver.
  destruct (tree_map_opt index0 ts) as [ts0|] eqn:Hts; simpl;
    [|split; [done|by intros [[? [=]] _]]].
  pose proof (cs_rollout _ _ Hc agent) as Hroll.
  pose proof (cs_gradient_step _ _ Hc agent) as Hgrad.
  unfold ext_returns in Hroll, Hgrad.
  destruct gpu_acting eqn:Hg; simpl.
  - specialize (Hroll (actor (params (params_state ts0))) (acting_state ts0) w).
    destruct (rollout E agent _ _ w) as [[[a d]|e] w1]; simplify_eq/=.
    specialize (Hgrad (replace_acting_state ts0 a) d w1).
    destruct (gradient_step E agent _ _ w1) as [[[ts1 raw]|e] w2]; simplify_eq/=.
    split; [split; [by eexists|done]|]. rewrite tree_map_index0_add_axis. by eexists.
  - destruct (jax_devices E (Some "cpu"%string) !! 0%nat) as [cpu|] eqn:Hcpu;
      simpl; [|split; [done|intros [_ Hd]; by destruct (Hd eq_refl) as [[? [=]] _]]].
    specialize (Hroll (put_on cpu <$> actor (params (params_state ts0)))
                      (put_on cpu <$> acting_state ts0) w).
    destruct (rollout E agent _ _ w) as [[[a d]|e] w1]; simplify_eq/=.
    destruct (jax_devices E None !! 0%nat) as [dev|] eqn:Hdev;
      simpl; [|split; [done|intros [_ Hd]; by destruct (Hd eq_refl) as [_ [? [=]]]]].
    specialize (Hgrad (replace_acting_state ts0 (put_on dev <$> a))
                      (put_on dev <$> d) w1).
    destruct (gradient_step E agent _ _ w1) as [[[ts1 raw]|e] w2]; simplify_eq/=.
    split; [split; [by eexists|by intros _; split; eexists]|].
    rewrite tree_map_index0_add_axis. by eexists.
Qed.

Lemma timed_ends {A} t (body : M (A * Metrics)) (P : A → Prop) X :
  ends body (λ am, P am.1) X →
  ends (timed E t body) (λ am, P am.1) X.
Proof.
  intros Hb. unfold timed.
  eapply (ends_bind _ _ (λ _, True)); [ends_block|intros _ _].
  eapply (ends_bind _ _ (λ _, True)); [ends_block|intros _ _].
  eapply ends_finally; [exact Hb|..].
  - intros am Ham. simpl.
    eapply (ends_bind _ _ (λ _, True)); [ends_block|intros _ _].
    eapply (ends_bind _ _ (λ _, True)); [ends_block|intros m _].
    by apply ends_ret.
  - intros e He. simpl.
    eapply (ends_bind _ _ (λ _, True)); [ends_block|intros _ _].
    eapply (ends_bind _ _ (λ _, True)); [ends_block|intros _ _].
    by apply ends_raise.
Qed.

Lemma evaluate_ends logger et which ev label ps k s X :
  ends (evaluate E logger et which ev label ps k s) (λ _, True) X.
Proof.
  unfold evaluate, write.
  eapply ends_bind.
  { apply (timed_ends _ _ (λ _, True)). ends_block. }
  intros ? _. ends_block.
Qed.

Lemma train_step_ends logger agent tt ts s :
  ends (train_step E gpu_acting logger agent tt ts s)
       (λ ts', runnable E gpu_acting ts ∧ replicated ts')
       (λ e, e = IndexError ∧ ¬ runnable E gpu_acting ts).
Proof.
  unfold train_step, write.
  eapply ends_bind.
  { apply (timed_ends _ _ (λ ts', runnable E gpu_acting ts ∧ replicated ts')).
    eapply ends_bind; [apply epoch_fn_ends|].
    intros r Hr. ends_block. }
  intros tm Htm. simpl in Htm. ends_block.
Qed.

Lemma epoch_ends logger agent se ge et tt N i st :
  ends (epoch E gpu_acting logger agent se ge et tt N i st)
       (λ st', runnable E gpu_acting st.2 ∧ replicated st'.2)
       (λ e, e = IndexError ∧ ¬ runnable E gpu_acting st.2).
Proof.
  unfold epoch.
  eapply (ends_bind _ _ (λ ks, ks = random_split st.1 3));
    [by intros w|intros ks ->]. simpl.
  eapply (ends_bind _ _ (λ _, True)); [ends_block|intros ? _].
  eapply ends_bind; [apply evaluate_ends|intros ? _].
  eapply (ends_bind _ _ (λ _, True)).
  { destruct (isinstance_RandomAgent E agent); simpl;
      [by apply ends_ret|apply evaluate_ends]. }
  intros ? _.
  eapply ends_bind; [apply train_step_ends|].
  intros ts' Hts'. by apply ends_ret.
Qed.

(** Once the state carried by the loop is runnable, the loop runs to its
    end. *)
Lemma for_each_ends logger agent se ge et tt N xs : ∀ st,
  runnable E gpu_acting st.2 →
  ends (for_each xs (epoch E gpu_acting logger agent se ge et tt N) st)
       (λ _, True) (λ _, False).
Proof.
  induction xs as [|i xs IH]; intros st Hst; simpl; [by apply ends_ret|].
  eapply (ends_bind _ _ (λ _, True)); [ends_block|intros _ _].
  eapply ends_bind.
  - eapply ends_weaken; [apply epoch_ends| |].
    + intros st' H. exact H.
    + intros e [_ Hno]. by destruct Hno.
  - intros st' [[_ Hdev] Hrep]. by apply IH.
Qed.

End Failing.

(** From a seed that is accepted: when every call to a component or a
    timer returns, a run returns, or the state that setup handed over is
    not runnable, the first epoch raises [IndexError] and no other epoch is
    started. *)
Lemma train_fails_in_the_first_epoch cfg log_compiles gpu_acting w :
  components_satisfy E ext_returns → timers_satisfy E ext_returns →
  outcome (train E cfg log_compiles gpu_acting w) = Ok tt ∨
  (outcome (train E cfg log_compiles gpu_acting w) = Raise IndexError ∧
   (∃ evs, epochs_of (events (train E cfg log_compiles gpu_acting w))
           = [(0, evs)]) ∧
   ∃ logger agent evaluators ts w7,
     setup_trace E cfg gpu_acting w logger agent evaluators ts w7 ∧
     ¬ runnable E gpu_acting ts).
Proof.
  intros Hc Ht.
  destruct (train_cases cfg log_compiles gpu_acting w)
    as [e w' Hfail Hr|logger agent evaluators ts w7 e w8 _ H8 Hr
       |logger agent evaluators ts w7 w8 e w9 _ _ H9 _ Hev
       |logger agent evaluators ts w7 w8 w9 l Hsetup H8 H9 Hout Hev].
  - exfalso. destruct Hfail;
      match goal with
      | H : ?op ?w0 = (Raise _, _) |- _ =>
          assert (ext_returns _ op) as Hop by apply Hc;
          specialize (Hop w0); by rewrite H in Hop
      end.
  - exfalso.
    assert (ext_returns _ (log_compiles_enter E log_compiles)) as Hop
      by apply Hc.
    specialize (Hop w7). by rewrite H8 in Hop.
  - exfalso.
    assert (ext_returns _ (logger_enter E logger)) as Hop by apply Hc.
    specialize (Hop w8). by rewrite H9 in Hop.
  - assert (outcome (train E cfg log_compiles gpu_acting w)
            = match outcome l with Ok _ => Ok tt | Raise e => Raise e end)
      as Hout'.
    { rewrite Hout. unfold leave_scopes, after_exit.
      destruct (outcome l) as [st|e]; simpl.
      - assert (ext_returns _ (logger_exit E logger None)) as Hl by apply Hc.
        specialize (Hl (world l)).
        destruct (logger_exit E logger None (world l)) as [[[]|e1] w1];
          simplify_eq/=.
        assert (ext_returns _ (log_compiles_exit E log_compiles None)) as Hx
          by apply Hc.
        specialize (Hx w1).
        by destruct (log_compiles_exit E log_compiles None w1) as [[[]|e2] w2].
      - assert (ext_returns _ (logger_exit E logger (Some e))) as Hl
          by apply Hc.
        specialize (Hl (world l)).
        destruct (logger_exit E logger (Some e) (world l)) as [[[]|e1] w1];
          simplify_eq/=.
        assert (ext_returns _ (log_compiles_exit E log_compiles (Some e))) as Hx
          by apply Hc.
        specialize (Hx w1).
        by destruct (log_compiles_exit E log_compiles (Some e) w1)
          as [[[]|e2] w2]. }
    rewrite Hout', (entered_epochs _ _ _ _ Hev). clear Hout Hout' Hev.
    subst l. unfold epoch_loop.
    destruct (trange (num_epochs cfg)) as [|i xs] eqn:Hxs; [by left|].
    assert (i = 0) as ->.
    { assert (trange (num_epochs cfg) !! 0%nat = Some i) as Hi
        by (by rewrite Hxs).
      by apply lookup_trange in Hi. }
    rewrite for_each_cons.
    pose proof (epoch_ends Hc Ht gpu_acting logger agent evaluators.1
                  evaluators.2 (mkTimer "metrics" None)
                  (mkTimer "metrics" (Some (steps_per_epoch cfg)))
                  (steps_per_epoch cfg) 0
                  (SubKey (PRNGKey (seed cfg)) 2 0, ts) w9) as Hep.
    pose proof (epoch_run E gpu_acting logger agent evaluators.1 evaluators.2
                  (mkTimer "metrics" None)
                  (mkTimer "metrics" (Some (steps_per_epoch cfg)))
                  (steps_per_epoch cfg) 0 (SubKey (PRNGKey (seed cfg)) 2 0) ts w9)
      as Hrun.
    apply epoch_trace_in_epoch in Hrun.
    destruct (epoch E gpu_acting logger agent evaluators.1 evaluators.2 _ _ _ 0
                _ w9) as [[st'|e] w10 evs0]; simpl in *.
    + left. destruct Hep as [[_ Hdev] Hrep].
      pose proof (for_each_ends Hc Ht gpu_acting logger agent evaluators.1
                    evaluators.2 (mkTimer "metrics" None)
                    (mkTimer "metrics" (Some (steps_per_epoch cfg)))
                    (steps_per_epoch cfg) xs st' (conj Hrep Hdev) w10) as Hrest.
      by destruct (outcome (for_each xs _ st' w10)).
    + right. destruct Hep as [-> Hno]. split_and!; [done| |by eauto 10].
      exists evs0. rewrite <- (app_nil_r evs0) at 1 2.
      by rewrite take_while_app_stop, epochs_of_app_inside by eauto.
Qed.


Lemma loop_trace_indices g agent et tt N xs key ts eps ok :
  loop_trace E g agent et tt N xs key ts eps ok →
  eps.*1 `prefix_of` xs ∧ (ok = true → eps.*1 = xs).
Proof.
  induction 1 as [key ts|i0 xs key ts evs0 Hep
                 |i0 xs key ts ts' evs0 rest ok Hep Hrest [IH1 IH2]]; simpl.
  - done.
  - split; [|done]. by exists xs.
  - split; [by apply (prefix_app [i0])|]. intros Hok. f_equal. by apply IH2.
Qed.

(** X14: the epochs that ran are numbered as an initial segment of
    [range(num_epochs)], whether the run returned or raised; a run that
    returned ran all of them. *)
Theorem epochs_are_an_initial_segment cfg log_compiles gpu_acting w :
  (epochs_of (events (train E cfg log_compiles gpu_acting w))).*1
    `prefix_of` seqZ 0 (num_epochs cfg) ∧
  (is_ok (outcome (train E cfg log_compiles gpu_acting w)) = true →
   (epochs_of (events (train E cfg log_compiles gpu_acting w))).*1
     = seqZ 0 (num_epochs cfg)).
Proof.
  destruct (train_cases cfg log_compiles gpu_acting w)
    as [e w' _ Hr|logger agent evaluators ts w7 e w8 _ _ Hr
       |logger agent evaluators ts w7 w8 e w9 _ _ _ Hout Hev
       |logger agent evaluators ts w7 w8 w9 l Hsetup H8 H9 Hout Hev].
  - rewrite Hr. simpl. split; [apply prefix_nil|done].
  - rewrite Hr. simpl. split; [apply prefix_nil|done].
  - rewrite Hev, Hout. simpl. split; [apply prefix_nil|].
    unfold after_exit.
    by destruct (log_compiles_exit E log_compiles (Some e) w9) as [[[]|e2] w2].
  - rewrite (entered_epochs _ _ _ _ Hev), Hout.
    pose proof (for_each_loop gpu_acting logger agent evaluators.1 evaluators.2
                  (mkTimer "metrics" None)
                  (mkTimer "metrics" (Some (steps_per_epoch cfg)))
                  (steps_per_epoch cfg) (trange (num_epochs cfg))
                  (SubKey (PRNGKey (seed cfg)) 2 0) ts w9) as Hloop.
    apply loop_trace_indices in Hloop as [Hpre Hall].
    split; [done|].
    intros Hok%leave_scopes_ok. by apply Hall.
Qed.

(** *** The components in their roles *)

(** Every epoch of the loop is a call of the loop body. *)
Lemma for_each_bodies g logger agent se ge et tt N xs : ∀ key ts w (j : nat) i evs,
  epochs_of (events (for_each xs (epoch E g logger agent se ge et tt N)
                              (key, ts) w)) !! j = Some (i, evs) →
  ∃ key' ts' w',
    evs = events (epoch E g logger agent se ge et tt N i (key', ts') w').
Proof.
  induction xs as [|i0 xs IH]; intros key ts w j i evs; [done|].
  rewrite for_each_cons.
  pose proof (epoch_run E g logger agent se ge et tt N i0 key ts w) as Hrun.
  pose proof (epoch_trace_in_epoch _ _ _ _ _ _ _ _ _ _ _ Hrun) as Hin.
  destruct (epoch E g logger agent se ge et tt N i0 (key, ts) w)
    as [[[key' ts']|e] w' evs0] eqn:Hep; simpl in *.
  - pose proof (for_each_starts (epoch E g logger agent se ge et tt N)
                  xs (key', ts') w') as Hstart.
    rewrite (take_while_app_stop _ _ _ Hin Hstart), epochs_of_app_inside by done.
    destruct j as [|j]; simpl.
    + intros [= <- <-]. exists key, ts, w. by rewrite Hep.
    + apply IH.
  - rewrite <- (app_nil_r evs0) at 1 2.
    rewrite take_while_app_stop, epochs_of_app_inside by eauto.
    destruct j as [|j]; simpl; [|done].
    intros [= <- <-]. exists key, ts, w. by rewrite Hep.
Qed.

Lemma train_bodies cfg log_compiles gpu_acting w (j : nat) i evs :
  epochs_of (events (train E cfg log_compiles gpu_acting w)) !! j
    = Some (i, evs) →
  ∃ logger agent evaluators ts0 w7 key ts w',
    setup_trace E cfg gpu_acting w logger agent evaluators ts0 w7 ∧
    evs = events (epoch E gpu_acting logger agent evaluators.1 evaluators.2
                    (mkTimer "metrics" None)
                    (mkTimer "metrics" (Some (steps_per_epoch cfg)))
                    (steps_per_epoch cfg) i (key, ts) w').
Proof.
  destruct (train_cases cfg log_compiles gpu_acting w)
    as [e w' _ Hr|logger agent evaluators ts w7 e w8 _ _ Hr
       |logger agent evaluators ts w7 w8 e w9 _ _ _ _ Hev
       |logger agent evaluators ts w7 w8 w9 l Hsetup H8 H9 Hout Hev].
  - by rewrite Hr.
  - by rewrite Hr.
  - by rewrite Hev.
  - rewrite (entered_epochs _ _ _ _ Hev). subst l. unfold epoch_loop.
    intros (key' & ts' & w' & ->)%for_each_bodies.
    by exists logger, agent, evaluators, ts, w7, key', ts', w'.
Qed.

Lemma evaluate_flow logger et which ev label ps k s w data label' s' :
  EvWrite data label' s' ∈ events (evaluate E logger et which ev label ps k s w) →
  label' = label ∧ s' = s ∧
  EvRunEvaluation which ps k ∈ events (evaluate E logger et which ev label ps k s w) ∧
  ∃ m w1 w2 w3 m' w4 w5,
    run_evaluation E ev ps k w1 = (Ok m, w2) ∧
    block_until_ready E w2 = (Ok tt, w3) ∧
    timer_exit E et m w3 = (Ok m', w4) ∧
    first_from_device E m' w4 = (Ok data, w5).
Proof.
  unfold evaluate, timed, write. run_driver.
  destruct (timer_enter E et w) as [[[]|e] w1]; simpl;
    [|intros Hin; set_unfold in Hin; by destruct_or?].
  destruct (run_evaluation E ev ps k w1) as [[m|e] w2] eqn:Hrun; simpl.
  - destruct (block_until_ready E w2) as [[[]|e] w3] eqn:Hready; simpl.
    + destruct (timer_exit E et m w3) as [[m'|e] w4] eqn:Hexit; simpl;
        [|intros Hin; set_unfold in Hin; by destruct_or?].
      destruct (first_from_device E m' w4) as [[data'|e] w5] eqn:Hfirst; simpl;
        [|intros Hin; set_unfold in Hin; by destruct_or?].
      destruct (logger_write E logger data' label s w5) as [[[]|e] w6]; simpl;
        intros Hin; set_unfold in Hin; destruct_or?; simplify_eq;
        (split_and!; [done|done|find_elem|];
         eexists _, _, _, _, _, _, _; split_and!; eassumption).
    + destruct (timer_abort E et e w3) as [[[]|e'] w4]; simpl;
        intros Hin; set_unfold in Hin; by destruct_or?.
  - destruct (timer_abort E et e w2) as [[[]|e'] w3]; simpl;
      intros Hin; set_unfold in Hin; by destruct_or?.
Qed.

Lemma train_step_labels g logger agent tt ts s w data label s' :
  EvWrite data label s' ∈ events (train_step E g logger agent tt ts s w) →
  label = "train"%string.
Proof.
  pose proof (train_step_run E g logger agent tt ts s w) as Hrun.
  intros Hin.
  assert (Forall (λ e, ∀ d l s0, e = EvWrite d l s0 → l = "train"%string)
            (events (train_step E g logger agent tt ts s w))) as Hall.
  { set (r := value _) in Hrun. clearbody r.
    destruct Hrun as [|r evs Hfn|ts' m evs d ok Hfn _];
      repeat first [apply Forall_cons; split | apply Forall_app; split
                   | apply Forall_nil ];
      try (intros; simplify_eq; done).
    all: destruct Hfn;
      repeat match goal with d : option Device |- _ => destruct d end;
      simpl; unfold rollout_call, gradient_call; repeat constructor;
      intros; simplify_eq. }
  rewrite Forall_forall in Hall. by eapply Hall.
Qed.

(** The events of an epoch are the split followed by the events of its
    blocks: the stochastic evaluation, the greedy one unless the agent is
    a [RandomAgent], and the training block. *)
Lemma epoch_blocks g logger agent se ge et tt N i key ts w :
  ∃ e2 e3 w1 w2,
    events (epoch E g logger agent se ge et tt N i (key, ts) w)
      = EvSplit key (random_split key 3)
        :: events (evaluate E logger et Stochastic se "eval_stochastic"
                     (params_state ts) (SubKey key 3 1) (i * N) w)
        ++ e2 ++ e3 ∧
    (e2 = [] ∨
     isinstance_RandomAgent E agent = false ∧
     e2 = events (evaluate E logger et Greedy ge "eval_greedy"
                    (params_state ts) (SubKey key 3 2) (i * N) w1)) ∧
    (e3 = [] ∨ e3 = events (train_step E g logger agent tt ts (i * N) w2)).
Proof.
  unfold epoch, split, unpack3; simpl.
  rewrite bind_run; simpl. rewrite bind_run; simpl.
  rewrite bind_run; simpl. rewrite bind_run; simpl.
  destruct (evaluate _ _ _ Stochastic _ _ _ _ _ w) as [[[]|e0] w1 e1];
    simpl.
  2:{ exists [], [], w, w. rewrite !app_nil_r. split_and!; [done|by left..]. }
  destruct (isinstance_RandomAgent E agent) eqn:Hrandom; simpl.
  - rewrite bind_run.
    exists [], (events (train_step E g logger agent tt ts (i * N) w1)), w1, w1.
    split_and!; [|by left|by right].
    destruct (train_step _ _ _ _ _ ts _ w1) as [[ts'|e0] w3 e3]; simpl;
      by rewrite ?app_nil_r.
  - destruct (evaluate _ _ _ Greedy _ _ _ _ _ w1) as [[[]|e0] w2 e2] eqn:H2;
      simpl.
    2:{ exists e2, [], w1, w1. rewrite H2, !app_nil_r. simpl.
        split_and!; [done|by right|by left]. }
    rewrite bind_run.
    exists e2, (events (train_step E g logger agent tt ts (i * N) w2)), w1, w2.
    rewrite H2. split_and!; [|by right|by right].
    destruct (train_step _ _ _ _ _ ts _ w2) as [[ts'|e0] w3 e3]; simpl;
      by rewrite ?app_nil_r.
Qed.

(** X15: what is written under an evaluation label is
    [utils.first_from_device] of what the eval timer handed back for the
    metrics that [run_evaluation] returned, once [block_until_ready]
    returned, for the evaluator of that label: the first one that
    [setup_evaluators] returned for ["eval_stochastic"], the second for
    ["eval_greedy"]. *)
Theorem evaluators_in_their_roles cfg log_compiles gpu_acting w (j : nat) i evs
    data label s :
  epochs_of (events (train E cfg log_compiles gpu_acting w)) !! j
    = Some (i, evs) →
  EvWrite data label s ∈ evs →
  label ≠ "train"%string →
  ∃ logger agent evaluators ts0 w7 which ps k,
    setup_trace E cfg gpu_acting w logger agent evaluators ts0 w7 ∧
    label = eval_label which ∧
    EvRunEvaluation which ps k ∈ evs ∧
    ∃ m w1 w2 w3 m' w4 w5,
      run_evaluation E (match which with
                        | Stochastic => evaluators.1
                        | Greedy => evaluators.2
                        end) ps k w1 = (Ok m, w2) ∧
      block_until_ready E w2 = (Ok tt, w3) ∧
      timer_exit E (mkTimer "metrics" None) m w3 = (Ok m', w4) ∧
      first_from_device E m' w4 = (Ok data, w5).
Proof.
  intros Hj Hin Hlabel.
  destruct (train_bodies _ _ _ _ _ _ _ Hj)
    as (logger & agent & evaluators & ts0 & w7 & key & ts & w' & Hsetup & ->).
  exists logger, agent, evaluators, ts0, w7.
  destruct (epoch_blocks gpu_acting logger agent evaluators.1 evaluators.2
              (mkTimer "metrics" None)
              (mkTimer "metrics" (Some (steps_per_epoch cfg)))
              (steps_per_epoch cfg) i key ts w')
    as (e2 & e3 & w1 & w2 & Hev & He2 & He3).
  rewrite Hev in Hin |- *. clear Hev.
  apply elem_of_cons in Hin as [?|Hin]; [done|].
  apply elem_of_app in Hin as [Hin|Hin].
  - destruct (evaluate_flow _ _ _ _ _ _ _ _ _ _ _ _ Hin)
      as (-> & -> & Hrun & Hflow).
    exists Stochastic, (params_state ts), (SubKey key 3 1).
    split_and!; [done|done| |done].
    apply elem_of_cons; right. apply elem_of_app. by left.
  - apply elem_of_app in Hin as [Hin|Hin].
    + destruct He2 as [-> | [_ ->] ]; [by apply elem_of_nil in Hin|].
      destruct (evaluate_flow _ _ _ _ _ _ _ _ _ _ _ _ Hin)
        as (-> & -> & Hrun & Hflow).
      exists Greedy, (params_state ts), (SubKey key 3 2).
      split_and!; [done|done| |done].
      apply elem_of_cons; right. apply elem_of_app; right.
      apply elem_of_app. by left.
    + destruct He3 as [-> | ->]; [by apply elem_of_nil in Hin|].
      by apply train_step_labels in Hin.
Qed.

End WholeRuns.

(** ** Complete epochs and runs from any seed *)

Section CompleteRuns.
Context `{O : Objects} (E : Externals).

(** *** The run from any seed *)

Lemma train_seeded_accepted cfg log_compiles gpu_acting w :
  seed_accepted cfg →
  train_seeded E cfg log_compiles gpu_acting w
  = train E cfg log_compiles gpu_acting w.
Proof.
  unfold seed_accepted, train_seeded. intros Hseed.
  destruct (jax_random_PRNGKey (seed cfg)) as [k|e]; [|done]. simpl.
  unfold mbind, M_bind, bind, ret.
  by destruct (train E cfg log_compiles gpu_acting w).
Qed.

Lemma train_seeded_rejected cfg log_compiles gpu_acting w :
  ¬ seed_accepted cfg →
  train_seeded E cfg log_compiles gpu_acting w = mkRun (Raise OverflowError) w [].
Proof.
  unfold seed_accepted, train_seeded, jax_random_PRNGKey. intros Hseed.
  by case_bool_decide.
Qed.

(** *** Epochs that ran to their end *)

Lemma loop_trace_lookup_key g agent et tt N xs key ts eps ok (j : nat) i evs :
  loop_trace E g agent et tt N xs key ts eps ok →
  eps !! j = Some (i, evs) →
  ∃ ts' r,
    epoch_trace E g agent et tt N i (Nat.iter j (λ k, SubKey k 3 0) key) ts' r evs ∧
    ((S j < length eps)%nat ∨ ok = true → is_Some r).
Proof.
  intros Hloop. revert j.
  induction Hloop as [key ts|i0 xs key ts evs0 Hep
                     |i0 xs key ts ts' evs0 rest ok Hep Hrest IH]; intros j Hj.
  - done.
  - destruct j as [|j]; simplify_eq/=.
    eexists _, _. split; [done|]. intros [?|?]; [lia|done].
  - destruct j as [|j]; simplify_eq/=.
    + eexists _, _. split; [done|]. by eauto.
    + destruct (IH j Hj) as (ts2 & r & Hep' & Hsome).
      rewrite <- (Nat.iter_succ_r j (λ k, SubKey k 3 0) key) in Hep'.
      eexists _, _. split; [done|].
      intros [?|?]; apply Hsome; [left; lia|by right].
Qed.

Lemma epoch_trace_complete g agent et tt N i key ts st' evs :
  epoch_trace E g agent et tt N i key ts (Some st') evs →
  ∃ ts0 cpu dev acting data0 ts1 raw d1 d2 d3,
    tree_map_opt index0 ts = Some ts0 ∧
    acting_device E g cpu ∧ learner_device E g dev ∧
    evs = EvSplit key (random_split key 3)
          :: evaluation_events et Stochastic (params_state ts) (SubKey key 3 1)
                               d1 (i * N)
          ++ (if isinstance_RandomAgent E agent then []
              else evaluation_events et Greedy (params_state ts)
                                     (SubKey key 3 2) d2 (i * N))
          ++ training_events tt ts0 cpu dev acting data0 ts1 raw d3 (i * N).
Proof.
  intros Hep.
  inversion Hep as [| |e1 e2 e3 [ts'|] H1 H2 H3 Heq]; simplify_eq/=.
  inversion H1 as [| |ok d1]; simplify_eq.
  inversion H3 as [| |ts2 m evs3 d3 ok Hfn Hrep Hok]; simplify_eq.
  destruct ok; simplify_eq.
  inversion Hfn as [| | | | |ts0 cpu acting data0 dev ts1 raw Hts0 Hcpu Hdev];
    simplify_eq.
  unfold greedy_trace in H2.
  destruct (isinstance_RandomAgent E agent).
  - destruct H2 as [_ ->].
    by eexists ts0, cpu, dev, acting, data0, ts1, raw, d1, d1, d3.
  - inversion H2 as [| |ok d2]; simplify_eq.
    by eexists ts0, cpu, dev, acting, data0, ts1, raw, d1, d2, d3.
Qed.

Lemma epoch_trace_starts g agent et tt N i key ts r evs :
  epoch_trace E g agent et tt N i key ts r evs →
  ∃ rest, evs = EvSplit key (random_split key 3) :: EvTimerEnter et :: rest.
Proof.
  intros Hep.
  inversion Hep as [e1 H1|e1 e2 H1 H2|e1 e2 e3 r0 H1 H2 H3]; simplify_eq;
    inversion H1; simplify_eq; by eexists.
Qed.

Lemma setup_trace_built cfg gpu_acting w logger agent evaluators ts w7 :
  setup_trace E cfg gpu_acting w logger agent evaluators ts w7 →
  agent_built E cfg gpu_acting agent.
Proof. destruct 1. unfold agent_built. eauto 10. Qed.




(** *** Runs in which every call returns *)

(** When the loop returns, every one of its epochs is a call of the loop
    body that returned. *)
Lemma for_each_returned g logger agent se ge et tt N xs : ∀ st w,
  is_ok (outcome (for_each xs (epoch E g logger agent se ge et tt N) st w)) = true →
  Forall (λ ie, ∃ key ts w',
            ie.2 = events (epoch E g logger agent se ge et tt N ie.1 (key, ts) w') ∧
            is_ok (outcome (epoch E g logger agent se ge et tt N ie.1 (key, ts) w'))
              = true)
    (epochs_of (events (for_each xs (epoch E g logger agent se ge et tt N) st w))).
Proof.
  induction xs as [|i0 xs IH]; intros [key ts] w; [constructor|].
  rewrite for_each_cons.
  pose proof (epoch_run E g logger agent se ge et tt N i0 key ts w) as Hrun.
  apply epoch_trace_in_epoch in Hrun.
  destruct (epoch E g logger agent se ge et tt N i0 (key, ts) w)
    as [[st'|e] w' evs0] eqn:Hep; simpl in *; [|done].
  intros Hok.
  pose proof (for_each_starts (epoch E g logger agent se ge et tt N)
                xs st' w') as Hstart.
  rewrite (take_while_app_stop _ _ _ Hrun Hstart), epochs_of_app_inside by done.
  constructor; [|by apply IH].
  exists key, ts, w. simpl. by rewrite Hep.
Qed.



End CompleteRuns.

Import Demo.


Lemma returned_replica_axis_witness :
  Forall (λ a, a = Some 1%nat) (leading_axes (replicated_state 1)) ∧
  Forall (λ a, ∃ n, a = Some (S n)) (leading_axes (replicated_state 2)).
Proof.
  eapply (returned_replica_axis (demo false false true) true false
            (replicated_state 2) 0).
  vm_compute. reflexivity.
Defined.

(** C2 as stated fails: called on a state replicated twice, [epoch_fn]
    returns a state whose leaves have a leading axis of length 1. *)
Lemma replica_axis_counterexample :
  ∃ m,
    outcome (epoch_fn (demo false false true) true false (replicated_state 2) 0)
      = Ok (replicated_state 1, m) ∧
    leading_axes (replicated_state 2) = [Some 2; Some 2; Some 2; Some 2]%nat ∧
    leading_axes (replicated_state 1) = [Some 1; Some 1; Some 1; Some 1]%nat ∧
    leading_axes (replicated_state 1) ≠ leading_axes (replicated_state 2).
Proof.
  eexists. split_and!; [vm_compute; reflexivity|done|done|].
  vm_compute. discriminate.
Qed.

Lemma train_metrics_are_means_witness :
  demo_train_data !! "loss"%string = Some (mkArray (Scalar 3) (Gpu 0)).
Proof.
  assert (epochs_of (events demo_run) !! 0%nat = Some (0, demo_epoch 0)) as H
    by (vm_compute; reflexivity).
  assert (EvWrite demo_train_data "train" 0 ∈ demo_epoch 0) as Hin
    by (apply (list_elem_of_lookup_2 _ 17%nat); vm_compute; reflexivity).
  destruct (train_metrics_are_means (demo false false true) demo_cfg false
              false 0 0%nat 0 (demo_epoch 0) demo_train_data 0 H Hin)
    as (ts1 & raw & Hret & Huniq & _ & Hmean).
  assert ({[ "loss"%string := vector [2; 4] ]} = raw) as <-.
  { eapply Huniq. apply (list_elem_of_lookup_2 _ 15%nat).
    vm_compute. reflexivity. }
  destruct (Hmean "loss"%string (vector [2; 4]) eq_refl) as [_ Hlog].
  apply Hlog. unfold timer_keeps. intros m1 m2 w1 w2 Hexit.
  injection Hexit as <- _. unfold Metrics in *. by apply lookup_insert_ne.
Defined.

(** C8 as stated fails: when [setup_env] raises, the run ends with that
    exception, the logger scope is never entered and the logger that
    [setup_logger] returned is never released. *)
Lemma logger_released_counterexample :
  outcome (train (demo true false true) demo_cfg false false 0)
    = Raise (RuntimeError "no such environment") ∧
  events (train (demo true false true) demo_cfg false false 0)
    = [EvSplit (PRNGKey 42) [SubKey (PRNGKey 42) 2 0; SubKey (PRNGKey 42) 2 1]] ∧
  ∀ exc, EvLoggerExit exc ∉ events (train (demo true false true) demo_cfg false false 0).
Proof.
  split_and!; [vm_compute; reflexivity..|].
  intros exc Hin.
  assert (events (train (demo true false true) demo_cfg false false 0)
    = [EvSplit (PRNGKey 42) [SubKey (PRNGKey 42) 2 0; SubKey (PRNGKey 42) 2 1]])
    as Hev by (vm_compute; reflexivity).
  rewrite Hev in Hin. set_unfold in Hin. by destruct_or?.
Qed.

(** C9 as stated fails: environment, agent, evaluators and logger ignore
    the world, yet two runs started at different clock readings log
    different data, because the timers report the clock into [metrics]. *)
Lemma runs_differ_counterexample :
  components_satisfy (demo false false true) (ext_det (λ _ _, True)) ∧
  writes (events (train (demo false false true) demo_cfg false false 0))
    ≠ writes (events (train (demo false false true) demo_cfg false false 100)).
Proof.
  split.
  - constructor; intros; intros w1 w2 _; done.
  - intros Heq.
    apply (f_equal (λ l, head l ≫= λ dls, arr_val <$> dls.1.1 !! "time"%string))
      in Heq.
    vm_compute in Heq. discriminate.
Qed.

Lemma runs_agree_witness :
  writes (events (train (demo false false false) demo_cfg false false 0))
    = writes (events (train (demo false false false) demo_cfg false false 100)) ∧
  outcome (train (demo false false false) demo_cfg false false 0)
    = outcome (train (demo false false false) demo_cfg false false 100).
Proof.
  apply (runs_agree (demo false false false) (λ _ _, True)).
  - constructor; intros; intros w1 w2 _; done.
  - constructor; intros; intros w1 w2 _; done.
  - done.
Defined.

Lemma greedy_key_always_drawn_witness :
  ∃ rest rest',
    demo_epoch 1
      = EvSplit (epoch_key 42 1)
          [SubKey (epoch_key 42 1) 3 0; SubKey (epoch_key 42 1) 3 1;
           SubKey (epoch_key 42 1) 3 2] :: rest ∧
    (default (0, []) (epochs_of (events
       (train (demo false true true) demo_cfg false true 7)) !! 1%nat)).2
      = EvSplit (epoch_key 42 1)
          [SubKey (epoch_key 42 1) 3 0; SubKey (epoch_key 42 1) 3 1;
           SubKey (epoch_key 42 1) 3 2] :: rest'.
Proof.
  destruct (greedy_key_always_drawn (demo false false true)
              (demo false true true) demo_cfg demo_cfg false false false true
              0 7 1%nat 1 1 (demo_epoch 1)
              (default (0, []) (epochs_of (events
                 (train (demo false true true) demo_cfg false true 7)) !! 1%nat)).2)
    as (key & rest & rest' & -> & H1 & H2 & _).
  - reflexivity.
  - vm_compute. reflexivity.
  - vm_compute. reflexivity.
  - by exists rest, rest'.
Defined.


Lemma fresh_keys_witness :
  NoDup (derived_keys (events demo_run)) ∧
  ∃ rest,
    demo_epoch 1
      = EvSplit (epoch_key 42 1)
          [SubKey (epoch_key 42 1) 3 0; SubKey (epoch_key 42 1) 3 1;
           SubKey (epoch_key 42 1) 3 2] :: rest ∧
    derived_keys rest = [].
Proof.
  destruct (fresh_keys (demo false false true) demo_cfg false false 0)
    as [Hfresh Hepochs].
  split; [exact Hfresh|].
  apply (Hepochs 1%nat 1 (demo_epoch 1)). vm_compute. reflexivity.
Defined.

Lemma logger_released_once_witness :
  ∃ mid exc,
    events demo_run
      = seed_split demo_cfg :: EvLoggerEnter :: mid ++ [EvLoggerExit exc] ∧
    (EvLoggerEnter ∉ mid) ∧ (∀ exc', EvLoggerExit exc' ∉ mid) ∧
    (exc = None ∨ is_ok (outcome demo_run) = false).
Proof.
  destruct (logger_released_once (demo false false true) demo_cfg false false 0)
    as [(Hno & _)|Hyes]; [|exact Hyes].
  exfalso. apply Hno. apply (list_elem_of_lookup_2 _ 1%nat).
  vm_compute. reflexivity.
Defined.

Import Edge.

Lemma epoch_fn_index_error_witness :
  epoch_fn (demo false false true) false false bare_state 5
  = mkRun (Raise IndexError) 5 [].
Proof.
  apply (epoch_fn_index_error (demo false false true) false false bare_state 5).
  apply Exists_cons_hd. by left.
Defined.

Lemma setup_precedes_loop_witness :
  ∃ ts w9,
    setup_trace (demo false false true) demo_cfg false 0 () false
                (Stochastic, Greedy) ts 0 ∧
    events demo_run
      = seed_split demo_cfg :: EvLoggerEnter
        :: events (epoch_loop (demo false false true) demo_cfg false () false
                              (Stochastic, Greedy) ts w9)
        ++ [EvLoggerExit None].
Proof.
  destruct (setup_precedes_loop (demo false false true) demo_cfg false false 0)
    as ([] & agent & evaluators & ts & w7 & w8 & w9 & Hsetup & H8 & H9 & Hev).
  { apply (list_elem_of_lookup_2 _ 1%nat). vm_compute. reflexivity. }
  exists ts, w9.
  assert (agent = false ∧ evaluators = (Stochastic, Greedy) ∧ w7 = 0
          ∧ ts = replicated_state 1) as (-> & -> & -> & ->)
    by (inversion Hsetup; simpl in *; unfold pure in *; by simplify_eq).
  injection H8 as <-. injection H9 as <-.
  split; [done|]. unfold demo_run. rewrite Hev. vm_compute. reflexivity.
Defined.

Lemma setup_failure_propagates_witness :
  train (demo true false true) demo_cfg false false 0
  = mkRun (Raise (RuntimeError "no such environment")) 0 [seed_split demo_cfg].
Proof.
  apply (setup_failure_propagates (demo true false true) demo_cfg false false 0).
  eapply SF_env; reflexivity.
Defined.

Lemma train_ends_as_its_loop_witness :
  outcome (train (handing_over bare_state) demo_cfg false false 0)
  = Raise IndexError.
Proof.
  apply (train_ends_as_its_loop (handing_over bare_state) demo_cfg false false 0
           (Some IndexError)).
  - intros l x w. reflexivity.
  - intros b x w. reflexivity.
  - apply (list_elem_of_lookup_2 _ 14%nat). vm_compute. reflexivity.
Defined.

Lemma nothing_runs_without_epochs_witness :
  events (train (demo false false true) no_epochs_cfg false false 0)
  = [seed_split no_epochs_cfg; EvLoggerEnter; EvLoggerExit None].
Proof.
  destruct (nothing_runs_without_epochs (demo false false true) no_epochs_cfg false false 0)
    as [[_ Hfail]|Hev]; [vm_compute; discriminate| |exact Hev].
  vm_compute in Hfail. discriminate.
Defined.

Lemma evaluation_before_update_witness :
  ∃ ts,
    (∃ logger agent evaluators w7,
       setup_trace (demo false false true) demo_cfg false 0
                   logger agent evaluators ts w7) ∧
    ∀ which ps k, EvRunEvaluation which ps k ∈ demo_epoch 0 →
      ps = params_state ts.
Proof.
  destruct (evaluation_before_update (demo false false true) demo_cfg false
              false 0 0%nat 0 (demo_epoch 0))
    as (ts & Hev & _ & Hfirst); [vm_compute; reflexivity|].
  exists ts. split; [by apply Hfirst|exact Hev].
Defined.

Lemma state_carried_over_witness :
  ∃ ts1 raw,
    EvGradientStepRet ts1 raw ∈ demo_epoch 0 ∧
    ∀ ts2 d, EvGradientStep ts2 d ∈ demo_epoch 1 →
      params_state ts2 = params_state ts1.
Proof.
  destruct (state_carried_over (demo false false true) demo_cfg false false 0
              0%nat 0 (demo_epoch 0) 1 (demo_epoch 1))
    as (ts1 & raw & Hret & _ & _ & Hgrad);
    [vm_compute; reflexivity..|].
  by exists ts1, raw.
Defined.

Lemma only_the_last_epoch_is_cut_short_witness :
  ∃ data, last (demo_epoch 0) = Some (EvWrite data "train" (0 * 30)).
Proof.
  apply (only_the_last_epoch_is_cut_short (demo false false true) demo_cfg
           false false 0 0%nat 0 (demo_epoch 0)).
  - vm_compute. reflexivity.
  - left. vm_compute. lia.
Defined.

Lemma env_steps_never_decrease_witness :
  StronglySorted Z.le ((log_lines (events demo_run)).*2).
Proof.
  apply (env_steps_never_decrease (demo false false true) demo_cfg false false 0).
  vm_compute. discriminate.
Defined.

Lemma timing_scopes_witness :
  scoped (mkTimer "metrics" None) (mkTimer "metrics" (Some 30)) None
         (demo_epoch 1) = true.
Proof.
  apply (timing_scopes (demo false false true) demo_cfg false false 0
           1%nat 1 (demo_epoch 1)).
  vm_compute. reflexivity.
Defined.

Lemma replica_axis_round_trip_witness :
  ∃ ts0,
    tree_map_opt index0 (replicated_state 1) = Some ts0 ∧
    tree_map add_axis ts0 = replicated_state 1.
Proof.
  eexists. split; [vm_compute; reflexivity|].
  apply (proj2 (replica_axis_round_trip (replicated_state 1))).
  - vm_compute. reflexivity.
  - repeat constructor.
Defined.

Lemma log_follows_the_schedule_witness :
  log_lines (events demo_run) = log_schedule false 2 30.
Proof.
  destruct (log_follows_the_schedule (demo false false true) demo_cfg false
              false 0) as (random & Hagent & _ & Hall).
  assert (random = false) as ->.
  { apply (Hagent () false (Stochastic, Greedy) (replicated_state 1) 0).
    by eapply Setup_done. }
  by apply Hall.
Defined.

Lemma evaluators_in_their_roles_witness :
  ∃ which ps k m w1 w2,
    EvRunEvaluation which ps k ∈ demo_epoch 0 ∧
    run_evaluation (demo false false true)
      (match which with Stochastic => Stochastic | Greedy => Greedy end)
      ps k w1 = (Ok m, w2).
Proof.
  destruct (evaluators_in_their_roles (demo false false true) demo_cfg false
              false 0 0%nat 0 (demo_epoch 0)
              (<[ "time"%string := scalar 1 ]>
                 {[ "episode_return"%string := vector [5] ]})
              "eval_greedy" 0)
    as (logger & agent & evaluators & ts0 & w7 & which & ps & k & Hsetup & _
        & Hev & m & w1 & w2 & w3 & m' & w4 & w5 & Hrun & _).
  - vm_compute. reflexivity.
  - apply (list_elem_of_lookup_2 _ 8%nat). vm_compute. reflexivity.
  - discriminate.
  - assert (evaluators = (Stochastic, Greedy)) as ->
      by (inversion Hsetup; simpl in *; unfold pure in *; by simplify_eq).
    by exists which, ps, k, m, w1, w2.
Defined.

Lemma epochs_are_an_initial_segment_witness :
  (epochs_of (events demo_run)).*1 = seqZ 0 2.
Proof.
  apply (epochs_are_an_initial_segment (demo false false true) demo_cfg false
           false 0).
  vm_compute. reflexivity.
Defined.

Import Faults.



(** C7 as stated fails: the gradient step reports a metric named ["time"],
    of mean 3; the train timer writes the clock under that name when its
    scope is left, and what is logged under ["train"] is the clock. *)
Lemma train_metric_counterexample :
  ∃ ts1 data,
    EvGradientStepRet ts1 {[ "time"%string := vector [2; 4] ]}
      ∈ (default (0, []) (epochs_of (events
           (train time_metric demo_cfg false false 0)) !! 0%nat)).2 ∧
    EvWrite data "train" 0
      ∈ (default (0, []) (epochs_of (events
           (train time_metric demo_cfg false false 0)) !! 0%nat)).2 ∧
    jnp_mean time_metric (vector [2; 4]) = mkArray (Scalar 3) (Gpu 0) ∧
    data !! "time"%string = Some (mkArray (Scalar 2) (Gpu 0)).
Proof.
  eexists _, _. split_and!.
  - apply (list_elem_of_lookup_2 _ 15%nat). vm_compute. reflexivity.
  - apply (list_elem_of_lookup_2 _ 17%nat). vm_compute. reflexivity.
  - reflexivity.
  - vm_compute. reflexivity.
Qed.


